(** * GEMGCN: the multi-scale gauge-equivariant mesh network of
    [models/gem_gcn.py]

    The file wires layers of the [gem_cnn] library into a U-Net.  Its own
    logic is the constructor (which layers, with which channel counts), the
    feature assembly of [prepare_input], and the order in which [forward]
    calls the layers.  The layers themselves belong to the library and are
    taken here as an interface ([GemCnn]).

    Effects are modelled as the code has them:
    - Python exceptions are the [Raise] results of [result];
    - a layer call may update the state that layer keeps between calls
      (the blocks are built with [batch_norm=True]), so [forward] runs in a
      state monad over the module;
    - every call into the library is appended to a call log, with its
      arguments and its result, so that the order of the pipeline and the
      data flow between its stages can be stated.

    Tensors are values: a shape and the elements in row-major order. *)

From stdpp Require Import base list strings.
From Stdlib Require Import ZArith Lia.

(** ** Exceptions *)

Inductive exn :=
  | AttributeError (attr : string)   (* [data.attr] on a batch without it *)
  | IndexError                       (* index out of range *)
  | ValueError                       (* unpacking a shape of the wrong rank *)
  | ShapeError                       (* torch's RuntimeError on incompatible sizes *)
  | LibraryError (msg : string).     (* any other failure inside the library *)

Inductive result (A : Type) :=
  | Ok (a : A)
  | Raise (e : exn).
Arguments Ok {A} a.
Arguments Raise {A} e.

#[global] Instance result_ret : MRet result := fun A a => Ok a.
#[global] Instance result_bind : MBind result := fun A B f r =>
  match r with Ok a => f a | Raise e => Raise e end.
#[global] Instance result_fmap : FMap result := fun A B f r =>
  match r with Ok a => Ok (f a) | Raise e => Raise e end.

Definition raises {A} (r : result A) : Prop :=
  match r with Ok _ => False | Raise _ => True end.

(** [o] or, when the value is missing, the exception [e]. *)
Definition or_raise {A} (e : exn) (o : option A) : result A :=
  match o with Some a => Ok a | None => Raise e end.

(** ** Types of the library *)

Class GemTypes := {
  scalar : Type;            (* a number a tensor holds, of whatever dtype *)
  zero : scalar;            (* 0.0 *)
  to_default : scalar -> scalar;
                            (* the number as a tensor of torch's default dtype
                               (float32 unless set otherwise) stores it *)
  radius : Type;            (* an entry of [radii] *)
  edge_index_t : Type;      (* [d.edge_index] *)
  precomp_t : Type;         (* [d.precomp] *)
  connection_t : Type;      (* [d.connection] *)
  geometry : Type;          (* what else a batch carries: positions, masks, ... *)
  weights : Type;           (* learned parameters of one block *)
  buffers : Type;           (* state a block keeps besides them *)
}.

Section Model.
Context {T : GemTypes}.

(** ** Tensors *)

Record tensor := { shape : list nat; elems : list scalar }.

Definition numel (s : list nat) : nat := foldr Nat.mul 1 s.

Definition tensor_wf (t : tensor) : Prop := length (elems t) = numel (shape t).

(** [torch.zeros(s)] *)
Definition zeros (s : list nat) : tensor :=
  {| shape := s; elems := replicate (numel s) zero |}.

(** [t.size(k)] *)
Definition size (t : tensor) (k : nat) : result nat :=
  or_raise IndexError (shape t !! k).

(** [t.clone()]: tensors are values here, a copy is the tensor itself. *)
Definition clone (t : tensor) : tensor := t.

(** [t.squeeze()]: every dimension of size one is dropped. *)
Definition squeeze (t : tensor) : tensor :=
  {| shape := filter (fun d => d <> 1) (shape t); elems := elems t |}.

(** Element [t[n, c, k]] of a tensor of rank three. *)
Definition get3 (t : tensor) (n c k : nat) : option scalar :=
  match shape t with
  | [dn; dc; dk] =>
      if decide (n < dn /\ c < dc /\ k < dk)
      then elems t !! ((n * dc + c) * dk + k)
      else None
  | _ => None
  end.

(** The slices [t[0], t[1], ...] along the first dimension, flattened. *)
Definition rows (t : tensor) : list (list scalar) :=
  match shape t with
  | [] => []
  | n :: s => (fun i => take (numel s) (drop (i * numel s) (elems t))) <$> seq 0 n
  end.

(** [torch.cat((t,), dim=1)] *)
Definition cat1_alone (t : tensor) : result tensor :=
  match shape t with
  | [] => Raise ShapeError
  | [0] => Ok t
  | [_] => Raise IndexError
  | _ :: _ :: _ => Ok t
  end.

(** [torch.cat((a, b), dim=1)].  The sizes must agree in every dimension
    but the second; a one-dimensional empty tensor is skipped, as torch
    does. *)
Definition cat1 (a b : tensor) : result tensor :=
  if decide (shape a = [0]) then cat1_alone b
  else if decide (shape b = [0]) then cat1_alone a
  else
    match shape a, shape b with
    | [], _ | _, [] => Raise ShapeError
    | [_], _ => Raise IndexError
    | _ :: _ :: _, [_] => Raise ShapeError
    | n :: ca :: ra, n' :: cb :: rb =>
        if decide (n = n' /\ ra = rb)
        then Ok {| shape := n :: (ca + cb) :: ra;
                   elems := mjoin (zip_with app (rows a) (rows b)) |}
        else Raise ShapeError
    end.

(** A one-dimensional value broadcast to length [n]. *)
Definition expand_to (v : list scalar) (n : nat) : result (list scalar) :=
  if decide (length v = n) then Ok v
  else match v with
       | [a] => Ok (replicate n a)
       | _ => Raise ShapeError
       end.

(** [t[:, 0, 0] = v] on a tensor of rank three and of the default dtype,
    as [torch.zeros] makes it: slot [(n, 0, 0)] sits at offset [n * (c * i)]
    of the row-major elements, and the assignment converts what it stores to
    the dtype of [t]. *)
Definition setitem_00 (t : tensor) (v : list scalar) : result tensor :=
  match shape t with
  | [n; c; i] =>
      if decide (c = 0 \/ i = 0) then Raise IndexError
      else
        vs ← expand_to v n;
        Ok {| shape := shape t;
              elems := imap (fun j e =>
                               if decide (j mod (c * i) = 0)
                               then default e (to_default <$> vs !! (j / (c * i)))
                               else e) (elems t) |}
  | _ => Raise IndexError
  end.

(** An index into a dimension of size [len]; negative indices count from
    the end. *)
Definition wrap_index (len : nat) (i : Z) : Z :=
  if (i <? 0)%Z then (i + Z.of_nat len)%Z else i.

(** [c[idx]] for a one-dimensional [c] and an integer tensor [idx]. *)
Definition getitem_index (c : list scalar) (idx : list Z) : result (list scalar) :=
  mapM (fun i : Z =>
          let j := wrap_index (length c) i in
          if decide (0 <= j < Z.of_nat (length c))%Z
          then or_raise IndexError (c !! Z.to_nat j)
          else Raise IndexError) idx.

(** [c[idx]] where [idx] is an integer tensor or [None]: [c[None]] is [c]
    with a leading dimension of size one, which the slice assignment it is
    used in drops again. *)
Definition getitem (c : list scalar) (idx : option (list Z)) : result (list scalar) :=
  match idx with
  | Some b => getitem_index c b
  | None => Ok c
  end.

(** ** The mesh batch

    A [torch_geometric] batch.  Reading an attribute it does not have
    raises [AttributeError], except for the attributes the class itself
    declares, which read [None]: of those the file uses [batch] and
    [edge_index]. *)

Record Data := {
  matrix_features : option tensor;
  geo : option (list scalar);
  condition : option (list scalar);
  batch : option (list Z);
  frame : option tensor;
  edge_index : option edge_index_t;
  precomp : option precomp_t;
  connection : option connection_t;
  mesh : geometry;
}.

(** [data.attr], for an attribute the class does not declare *)
Definition getattr {A} (name : string) (o : option A) : result A :=
  or_raise (AttributeError name) o.

Definition with_matrix_features (d : Data) (t : tensor) : Data :=
  {| matrix_features := Some t; geo := geo d;
     condition := condition d; batch := batch d; frame := frame d;
     edge_index := edge_index d; precomp := precomp d;
     connection := connection d; mesh := mesh d |}.

(** ** Tensor objects of the feature assembly

    A variable of [prepare_input] names a tensor object: [features] names
    the one the batch holds as [matrix_features], every other variable an
    object the assembly created itself.  [t[:, 0, 0] = v] writes into the
    object [t] names, whichever it is. *)

Inductive name :=
  | OfBatch              (* [data.matrix_features] *)
  | Created (k : nat).   (* the [k]-th tensor the assembly created *)

Record objects := { the_batch : Data; created : list tensor }.

Definition Asm (A : Type) : Type := objects -> result A * objects.

#[global] Instance Asm_ret : MRet Asm := fun A a o => (Ok a, o).
#[global] Instance Asm_bind : MBind Asm := fun A B f m o =>
  match m o with
  | (Ok a, o') => f a o'
  | (Raise e, o') => (Raise e, o')
  end.

(** A step that touches no object. *)
Definition pure {A} (r : result A) : Asm A := fun o => (r, o).

(** [data.attr], read from the batch as it is at that point *)
Definition batch_attr {A} (attr : string) (field : Data -> option A) : Asm A := fun o =>
  (getattr attr (field (the_batch o)), o).

(** [data.batch], which reads [None] when the batch has none *)
Definition batch_index : Asm (option (list Z)) := fun o => (Ok (batch (the_batch o)), o).

(** The tensor a name stands for.  A created name always has one: names
    come from [create]. *)
Definition tensor_of (n : name) : Asm tensor := fun o =>
  (match n with
   | OfBatch => getattr "matrix_features" (matrix_features (the_batch o))
   | Created k => or_raise (LibraryError "no such tensor") (created o !! k)
   end, o).

(** A new tensor object, as [torch.zeros] and [torch.cat] return one. *)
Definition create (t : tensor) : Asm name := fun o =>
  (Ok (Created (length (created o))),
   {| the_batch := the_batch o; created := created o ++ [t] |}).

(** The object [n] names gets the content [t]. *)
Definition put (n : name) (t : tensor) : Asm unit := fun o =>
  (Ok tt,
   match n with
   | OfBatch => {| the_batch := with_matrix_features (the_batch o) t; created := created o |}
   | Created k => {| the_batch := the_batch o; created := <[k := t]> (created o) |}
   end).

(** [n[:, 0, 0] = v], in place *)
Definition assign_00 (n : name) (v : list scalar) : Asm unit :=
  t ← tensor_of n;
  t' ← pure (setitem_00 t v);
  put n t'.

(** [torch.cat((a, b), dim=1)] *)
Definition cat (a b : name) : Asm name :=
  ta ← tensor_of a;
  tb ← tensor_of b;
  t ← pure (cat1 ta tb);
  create t.

(** ** Layers of the library, as the constructor describes them *)

Inductive transform :=
  | ScaleMask (i : nat)
  | GemPrecomp (n_rings max_order : nat) (max_r : radius).

Inductive composed := Compose (ts : list transform).

Record kwargs := {
  n_rings : nat;
  band_limit : nat;
  num_samples : nat;
  checkpoint : bool;
  batch_norm : bool;
}.

Record block_cfg := {
  in_channels : nat;
  out_channels : nat;
  in_order : nat;
  out_order : nat;
  block_kwargs : kwargs;
  last_layer : option bool;     (* [None]: not passed *)
}.

Definition GemResNetBlock (in_channels out_channels in_order out_order : nat)
    (last_layer : option bool) (kw : kwargs) : block_cfg :=
  {| in_channels := in_channels; out_channels := out_channels;
     in_order := in_order; out_order := out_order;
     block_kwargs := kw; last_layer := last_layer |}.

Record block := {
  cfg : block_cfg;
  learned : weights;
  running : buffers;
}.

Definition with_running (b : block) (r : buffers) : block :=
  {| cfg := cfg b; learned := learned b; running := r |}.

Record pool_cfg := ParallelTransportPool { coarse_lvl : nat; unpool : bool }.

(** The attributes of the module that hold a layer. *)
Inductive block_name :=
  | conv01 | conv02 | conv03 | conv04 | conv05 | conv06
  | conv11 | conv12 | conv13 | conv14 | conv15 | conv16
  | conv21 | conv22.

Inductive pool_name := pool1 | pool2 | unpool2 | unpool1.

#[global] Instance block_name_eq_dec : EqDecision block_name.
Proof. solve_decision. Defined.
#[global] Instance pool_name_eq_dec : EqDecision pool_name.
Proof. solve_decision. Defined.

(** An entry of [scale_attr]; its first component is what [d.edge_index]
    read, [None] included. *)
Definition scale_attr_t : Type := option edge_index_t * precomp_t * connection_t.

(** ** The module *)

Record GEMGCN := {
  in_rep : list nat;
  out_rep : list nat;
  scale_transforms : list composed;
  blocks : block_name -> block;
  pools : pool_name -> pool_cfg;
}.

(** [__init__(self, radii, in_rep, out_rep, max_order=2, n_rings=2)].
    [fresh] gives the weights and buffers the library initialises each
    block with.  The constructor's [print] is not modelled. *)
Definition __init__ (radii : list radius) (in_rep out_rep : list nat)
    (max_order n_rings : option nat)
    (fresh : block_name -> weights * buffers) : result GEMGCN :=
  let max_order := default 2 max_order in
  let n_rings := default 2 n_rings in
  let channels := 26 in
  let kwargs := {| n_rings := n_rings; band_limit := 2; num_samples := 7;
                   checkpoint := true; batch_norm := true |} in
  (* Computed each forward pass *)
  let scale_transforms :=
    imap (fun i r => Compose [ScaleMask i; GemPrecomp n_rings max_order r]) radii in
  in1 ← or_raise IndexError (in_rep !! 1);
  in0 ← or_raise IndexError (in_rep !! 0);
  out1 ← or_raise IndexError (out_rep !! 1);
  out0 ← or_raise IndexError (out_rep !! 0);
  Ok {| in_rep := in_rep;
        out_rep := out_rep;
        scale_transforms := scale_transforms;
        blocks := fun b =>
          {| cfg :=
               match b with
               (* Encoder *)
               | conv01 => GemResNetBlock in1 channels in0 max_order None kwargs
               | conv02 => GemResNetBlock channels channels max_order max_order None kwargs
               (* Downstream *)
               | conv11 => GemResNetBlock channels channels max_order max_order None kwargs
               | conv12 => GemResNetBlock channels channels max_order max_order None kwargs
               | conv21 => GemResNetBlock channels channels max_order max_order None kwargs
               | conv22 => GemResNetBlock channels channels max_order max_order None kwargs
               (* Up-stream *)
               | conv13 => GemResNetBlock (channels + channels) channels max_order max_order None kwargs
               | conv14 => GemResNetBlock channels channels max_order max_order None kwargs
               | conv15 => GemResNetBlock channels channels max_order max_order None kwargs
               | conv16 => GemResNetBlock channels channels max_order max_order None kwargs
               (* Decoder *)
               | conv03 => GemResNetBlock (channels + channels) channels max_order max_order None kwargs
               | conv04 => GemResNetBlock channels channels max_order max_order None kwargs
               | conv05 => GemResNetBlock channels channels max_order max_order None kwargs
               | conv06 => GemResNetBlock channels out1 max_order out0 (Some true) kwargs
               end;
             learned := (fresh b).1;
             running := (fresh b).2 |};
        pools := fun p =>
          match p with
          | pool1 => ParallelTransportPool 1 false
          | pool2 => ParallelTransportPool 2 false
          | unpool2 => ParallelTransportPool 2 true
          | unpool1 => ParallelTransportPool 1 true
          end |}.

(** ** Calls into the library, and the state of one run *)

Inductive call :=
  | Transformed (t : composed) (d : Data) (r : result Data)
  | Convolved (b : block_name) (x : tensor) (a : scale_attr_t) (r : result tensor)
  | Pooled (p : pool_name) (x : tensor) (d : Data) (r : result tensor)
  | Projected (x fr : tensor) (r : result tensor).

Record world := { self : GEMGCN; calls : list call }.

Definition M (A : Type) : Type := world -> result A * world.

#[global] Instance M_ret : MRet M := fun A a w => (Ok a, w).
#[global] Instance M_bind : MBind M := fun A B f m w =>
  match m w with
  | (Ok a, w') => f a w'
  | (Raise e, w') => (Raise e, w')
  end.

(** A computation that touches neither the module nor the library. *)
Definition lift {A} (r : result A) : M A := fun w => (r, w).

Definition get_self : M GEMGCN := fun w => (Ok (self w), w).

Definition logged (c : call) (w : world) : world :=
  {| self := self w; calls := calls w ++ [c] |}.

Definition set_running (b : block_name) (r : buffers) (m : GEMGCN) : GEMGCN :=
  {| in_rep := in_rep m; out_rep := out_rep m;
     scale_transforms := scale_transforms m;
     blocks := fun b' => if decide (b' = b) then with_running (blocks m b) r else blocks m b';
     pools := pools m |}.

End Model.

(** ** Operations of the library

    None of them assigns to the batch it is given: the transforms return a
    new batch.  A block returns its output together with the buffers it is
    left with; its configuration and weights are not its to change. *)

Class GemCnn {T : GemTypes} := {
  scale_mask : nat -> Data -> result Data;
  gem_precomp : nat -> nat -> radius -> Data -> result Data;
  gem_res_net_block :
    block -> tensor -> option edge_index_t -> precomp_t -> connection_t ->
    result tensor * buffers;
  parallel_transport_pool : pool_cfg -> tensor -> Data -> result tensor;
  so2_feature_to_ambient_vector : tensor -> tensor -> result tensor;
}.

Section Network.
Context {T : GemTypes} {L : GemCnn}.

(** [t(data)] for one transform, and for [T.Compose([...])], which feeds
    the batch through its transforms in order. *)
Definition apply_transform (t : transform) (d : Data) : result Data :=
  match t with
  | ScaleMask i => scale_mask i d
  | GemPrecomp n_rings max_order max_r => gem_precomp n_rings max_order max_r d
  end.

Definition apply_composed (s : composed) (d : Data) : result Data :=
  match s with
  | Compose ts => foldl (fun r t => d' ← r; apply_transform t d') (Ok d) ts
  end.

(** [s(data)] *)
Definition call_transform (s : composed) (d : Data) : M Data := fun w =>
  let r := apply_composed s d in
  (r, logged (Transformed s d r) w).

(** [self.<b>(x, *a)], where [a] is [scale_attr[i]] ([None]: no such entry):
    the block runs on its current state and is left with new buffers. *)
Definition run_block (b : block_name) (x : tensor) (a : scale_attr_t) : M tensor := fun w =>
  let '(ei, pc, cn) := a in
  let '(r, buf) := gem_res_net_block (blocks (self w) b) x ei pc cn in
  (r, logged (Convolved b x a r)
        {| self := set_running b buf (self w); calls := calls w |}).

Definition call_block (b : block_name) (x : tensor) (a : option scale_attr_t) : M tensor :=
  a ← lift (or_raise IndexError a);
  run_block b x a.

(** [self.<p>(x, data)] *)
Definition call_pool (p : pool_name) (x : tensor) (d : Data) : M tensor := fun w =>
  let r := parallel_transport_pool (pools (self w) p) x d in
  (r, logged (Pooled p x d r) w).

(** [so2_feature_to_ambient_vector(x, fr)] *)
Definition call_project (x fr : tensor) : M tensor := fun w =>
  let r := so2_feature_to_ambient_vector x fr in
  (r, logged (Projected x fr r) w).

(** The feature assembly, lines 71 to 86 of [prepare_input], over the
    tensor objects: it returns the name of [x]. *)
Definition assemble (self : GEMGCN) : Asm name :=
  (* Geodesics-to-inlet feature in SO(2) representation *)
  let features := OfBatch in
  f ← tensor_of features;
  '(N, irreps) ← pure match shape f with
                      | [N; _; irreps] => Ok (N, irreps)
                      | _ => Raise ValueError
                      end;
  geodesics ← create (zeros [N; 1; irreps]);
  g ← batch_attr "geo" geo;
  _ ← assign_00 geodesics g;
  x ← cat features geodesics;
  in1 ← pure (or_raise IndexError (in_rep self !! 1));
  tx ← tensor_of x;
  width ← pure (size tx 1);
  if decide (width < in1) then      (* self.in_rep[1] > x.size(1) *)
    condition_ ← create (zeros [N; 1; irreps]);
    c ← batch_attr "condition" condition;
    b ← batch_index;
    v ← pure (getitem c b);
    _ ← assign_00 condition_ v;
    cat x condition_
  else mret x.

(** The assembly on a batch: the tensor it returns, and the objects it
    leaves. *)
Definition run_assembly (self : GEMGCN) (data : Data) : result tensor * objects :=
  (x ← assemble self; tensor_of x) {| the_batch := data; created := [] |}.

Definition feature_assembly (self : GEMGCN) (data : Data) : result tensor :=
  (run_assembly self data).1.

(** The batch as the assembly leaves it. *)
Definition assembly_batch (self : GEMGCN) (data : Data) : Data :=
  the_batch (run_assembly self data).2.

(** [(d.edge_index, d.precomp, d.connection)] *)
Definition attr_triple (d : Data) : result scale_attr_t :=
  let ei := edge_index d in         (* reads [None] when [d] has none *)
  pc ← getattr "precomp" (precomp d);
  cn ← getattr "connection" (connection d);
  Ok (ei, pc, cn).

Definition prepare_input (data : Data) : M (tensor * list scale_attr_t) :=
  self ← get_self;
  x ← lift (feature_assembly self data);
  (* Select the scale graphs *)
  scale_data ← mapM (fun s => call_transform s data) (scale_transforms self);
  scale_attr ← lift (mapM attr_triple scale_data);
  mret (x, scale_attr).

Definition forward (data : Data) : M tensor :=
  '(x, scale_attr) ← prepare_input data;
  (* Encoder *)
  x ← call_block conv01 x (scale_attr !! 0);
  x ← call_block conv02 x (scale_attr !! 0);
  (* Downstream *)
  let copy0 := clone x in
  x ← call_pool pool1 x data;
  x ← call_block conv11 x (scale_attr !! 1);
  x ← call_block conv12 x (scale_attr !! 1);
  let copy1 := clone x in
  x ← call_pool pool2 x data;
  x ← call_block conv21 x (scale_attr !! 2);
  x ← call_block conv22 x (scale_attr !! 2);
  (* Upstream *)
  x ← call_pool unpool2 x data;
  x ← lift (cat1 x copy1);
  x ← call_block conv13 x (scale_attr !! 1);
  x ← call_block conv14 x (scale_attr !! 1);
  x ← call_block conv15 x (scale_attr !! 1);
  x ← call_block conv16 x (scale_attr !! 1);
  (* Decoder *)
  x ← call_pool unpool1 x data;
  x ← lift (cat1 x copy0);
  x ← call_block conv03 x (scale_attr !! 0);
  x ← call_block conv04 x (scale_attr !! 0);
  x ← call_block conv05 x (scale_attr !! 0);
  x ← call_block conv06 x (scale_attr !! 0);
  (* Construct ambient vectors from tangential SO(2) features *)
  fr ← lift (getattr "frame" (frame data));
  x ← call_project x fr;
  mret (squeeze x).

End Network.

(** ** Vocabulary for stating the properties *)

Section Vocabulary.
Context {T : GemTypes} {L : GemCnn}.

(** The transforms [prepare_input] gets to call: every one up to and
    including the first that raises. *)
Fixpoint attempted (d : Data) (ts : list composed) : list composed :=
  match ts with
  | [] => []
  | s :: ts =>
      s :: match apply_composed s d with
           | Ok _ => attempted d ts
           | Raise _ => []
           end
  end.

(** What [prepare_input] returns as [scale_attr]: the three attributes of
    every transformed batch. *)
Definition scale_attrs (m : GEMGCN) (d : Data) : result (list scale_attr_t) :=
  ds ← mapM (fun s => apply_composed s d) (scale_transforms m);
  mapM attr_triple ds.

(** The log entry of [s(data)]. *)
Definition transform_call (d : Data) (s : composed) : call :=
  Transformed s d (apply_composed s d).

(** The scale level a block works at: native resolution, first or second
    pooling level. *)
Definition block_scale (b : block_name) : nat :=
  match b with
  | conv01 | conv02 | conv03 | conv04 | conv05 | conv06 => 0
  | conv11 | conv12 | conv13 | conv14 | conv15 | conv16 => 1
  | conv21 | conv22 => 2
  end.

(** The calls [forward] appended to the log of [w]. *)
Definition new_calls (w w' : world) : list call := drop (length (calls w)) (calls w').

(** *** The pipeline as the specification words it

    A linear sequence of stages over the current features and a stack of
    skip copies: a pooling step keeps a copy of the features it is given,
    the matching unpooling step takes the most recent copy back and
    concatenates it to its output. *)

Inductive stage :=
  | Convolve (b : block_name) (lvl : nat)
  | PoolDown (p : pool_name)
  | UnpoolUp (p : pool_name).

Definition spec_pipeline : list stage :=
  [ Convolve conv01 0; Convolve conv02 0;
    PoolDown pool1; Convolve conv11 1; Convolve conv12 1;
    PoolDown pool2; Convolve conv21 2; Convolve conv22 2;
    UnpoolUp unpool2;
    Convolve conv13 1; Convolve conv14 1; Convolve conv15 1; Convolve conv16 1;
    UnpoolUp unpool1;
    Convolve conv03 0; Convolve conv04 0; Convolve conv05 0; Convolve conv06 0 ].

Definition spec_stage (d : Data) (sa : list scale_attr_t) (s : stage)
    (st : tensor * list tensor) : M (tensor * list tensor) :=
  let '(x, skips) := st in
  match s with
  | Convolve b lvl =>
      y ← call_block b x (sa !! lvl);
      mret (y, skips)
  | PoolDown p =>
      y ← call_pool p x d;
      mret (y, x :: skips)
  | UnpoolUp p =>
      y ← call_pool p x d;
      match skips with
      | copy :: skips => z ← lift (cat1 y copy); mret (z, skips)
      | [] => lift (Raise (LibraryError "no skip copy"))
      end
  end.

Fixpoint spec_stages (d : Data) (sa : list scale_attr_t) (l : list stage)
    (st : tensor * list tensor) : M (tensor * list tensor) :=
  match l with
  | [] => mret st
  | s :: l => st' ← spec_stage d sa s st; spec_stages d sa l st'
  end.

Definition spec_forward (d : Data) : M tensor :=
  '(x, sa) ← prepare_input d;
  st ← spec_stages d sa spec_pipeline (x, []);
  fr ← lift (getattr "frame" (frame d));
  y ← call_project st.1 fr;
  mret (squeeze y).

(** Two states of the module that differ at most in the buffers of its
    blocks: same declaration, same transforms, same pooling layers, and for
    every block the same configuration and weights. *)
Definition same_params (m m' : GEMGCN) : Prop :=
  in_rep m = in_rep m' /\ out_rep m = out_rep m' /\
  scale_transforms m = scale_transforms m' /\
  (forall p, pools m p = pools m' p) /\
  forall b, cfg (blocks m b) = cfg (blocks m' b) /\
            learned (blocks m b) = learned (blocks m' b).

(** The log entry a stage leaves: the call of its own layer, a block with
    the attributes of its scale level, a pooling layer with the batch. *)
Definition stage_call (d : Data) (sa : list scale_attr_t) (s : stage) (c : call) : Prop :=
  match s, c with
  | Convolve b lvl, Convolved b' _ a _ => b' = b /\ sa !! lvl = Some a
  | PoolDown p, Pooled p' _ d' _ | UnpoolUp p, Pooled p' _ d' _ => p' = p /\ d' = d
  | _, _ => False
  end.

(** The assembly reads [data.condition] and [data.batch] when the module
    declares more input channels than the matrix features and the
    geodesics fill. *)
Definition reads_condition (m : GEMGCN) (d : Data) : Prop :=
  exists f N C I in1,
    matrix_features d = Some f /\ shape f = [N; C; I] /\
    in_rep m !! 1 = Some in1 /\ C + 1 < in1.


(** The log of a run of stages in which every call returned: what each
    layer was given and what it returned, from the features and skip copies
    before to those after. *)
Inductive stages_log (d : Data) (sa : list scale_attr_t) :
    list stage -> tensor * list tensor -> list call -> tensor * list tensor -> Prop :=
  | log_done st :
      stages_log d sa [] st [] st
  | log_convolve b lvl a x y skips l cs st' :
      sa !! lvl = Some a ->
      stages_log d sa l (y, skips) cs st' ->
      stages_log d sa (Convolve b lvl :: l) (x, skips)
        (Convolved b x a (Ok y) :: cs) st'
  | log_pool_down p x y skips l cs st' :
      stages_log d sa l (y, x :: skips) cs st' ->
      stages_log d sa (PoolDown p :: l) (x, skips)
        (Pooled p x d (Ok y) :: cs) st'
  | log_unpool_up p x y z copy skips l cs st' :
      cat1 y copy = Ok z ->
      stages_log d sa l (z, skips) cs st' ->
      stages_log d sa (UnpoolUp p :: l) (x, copy :: skips)
        (Pooled p x d (Ok y) :: cs) st'.

(** A batch of [N] vertices whose attributes have the shapes the module
    was declared for: matrix features of the declared input order, with one
    or two channels fewer than declared; one geodesic distance per vertex;
    a frame per vertex; and, when the declaration counts the condition
    channel, a graph index per vertex that names an entry of
    [condition]. *)
Definition well_shaped (m : GEMGCN) (d : Data) (N : nat) : Prop :=
  exists f C in0 in1 g fr,
    in_rep m !! 0 = Some in0 /\ in_rep m !! 1 = Some in1 /\
    matrix_features d = Some f /\ shape f = [N; C; 2 * in0 + 1] /\
    geo d = Some g /\ length g = N /\
    frame d = Some fr /\ shape fr = [N; 3; 3] /\
    (in1 = C + 1 \/
     (in1 = C + 2 /\
      exists c b, condition d = Some c /\ batch d = Some b /\ length b = N /\
                  Forall (fun i => 0 <= i < Z.of_nat (length c))%Z b)).

(** The library does its part on the batch [d], whose pooling level [lvl]
    has [nv lvl] vertices: every scale transform of the module returns a
    batch with the three attributes; a block given the attributes of a
    level and features of that level, with the channels and the order it
    was declared for, returns features of that level with its output
    channels and order; a pooling layer of the module for level [l] takes
    features of level [l - 1] to level [l], an unpooling layer back; the projection takes features
    of order one, with the frames of the batch, to as many ambient
    vectors. *)
Definition library_fits (m : GEMGCN) (d : Data) (nv : nat -> nat) : Prop :=
  (forall s, s ∈ scale_transforms m ->
     exists d' a, apply_composed s d = Ok d' /\ attr_triple d' = Ok a) /\
  (forall (blk : block) lvl s d' (a : scale_attr_t) x,
     scale_transforms m !! lvl = Some s ->
     apply_composed s d = Ok d' -> attr_triple d' = Ok a ->
     shape x = [nv lvl; in_channels (cfg blk); 2 * in_order (cfg blk) + 1] ->
     exists y, (gem_res_net_block blk x a.1.1 a.1.2 a.2).1 = Ok y /\
       shape y = [nv lvl; out_channels (cfg blk); 2 * out_order (cfg blk) + 1]) /\
  (forall pn x c i,
     let p := pools m pn in
     shape x = [nv (if unpool p then coarse_lvl p else coarse_lvl p - 1); c; i] ->
     exists y, parallel_transport_pool p x d = Ok y /\
       shape y = [nv (if unpool p then coarse_lvl p - 1 else coarse_lvl p); c; i]) /\
  (forall x fr c,
     frame d = Some fr -> shape fr = [nv 0; 3; 3] -> shape x = [nv 0; c; 3] ->
     exists y, so2_feature_to_ambient_vector x fr = Ok y /\ shape y = [nv 0; c; 3]).

(** What kind of library call a log entry is. *)
Inductive call_kind :=
  | KTransform
  | KConv (b : block_name)
  | KPool (p : pool_name)
  | KProject.

Definition kind_of (c : call) : call_kind :=
  match c with
  | Transformed _ _ _ => KTransform
  | Convolved b _ _ _ => KConv b
  | Pooled p _ _ _ => KPool p
  | Projected _ _ _ => KProject
  end.

Definition stage_kind (s : stage) : call_kind :=
  match s with
  | Convolve b _ => KConv b
  | PoolDown p | UnpoolUp p => KPool p
  end.

(** The order of calls of a complete run over [n] scales. *)
Definition pipeline_kinds (n : nat) : list call_kind :=
  replicate n KTransform ++ (stage_kind <$> spec_pipeline) ++ [KProject].

(** *** Vocabulary for failures and edge cases *)

(** An index a dimension of size [len] has: negative ones count from the
    end. *)
Definition valid_index (len : nat) (i : Z) : Prop :=
  (- Z.of_nat len <= i < Z.of_nat len)%Z.

#[global] Instance valid_index_dec (len : nat) (i : Z) : Decision (valid_index len i).
Proof. unfold valid_index. apply _. Defined.

(** A one-dimensional value of [k] entries can be assigned to [n] slots:
    one entry per slot, or a single entry for all of them. *)
Definition broadcasts (k n : nat) : Prop := k = n \/ k = 1.

#[global] Instance broadcasts_dec (k n : nat) : Decision (broadcasts k n).
Proof. unfold broadcasts. apply _. Defined.

(** The batch with other [condition] and [batch] attributes. *)
Definition with_condition (d : Data) (c : option (list scalar)) (b : option (list Z)) : Data :=
  {| matrix_features := matrix_features d; geo := geo d;
     condition := c; batch := b; frame := frame d;
     edge_index := edge_index d; precomp := precomp d;
     connection := connection d; mesh := mesh d |}.

(** The exception a result stands for. *)
Definition raised {A} (r : result A) : option exn :=
  match r with Ok _ => None | Raise e => Some e end.

(** The exception a logged library call ended with. *)
Definition call_exn (c : call) : option exn :=
  match c with
  | Transformed _ _ r => raised r
  | Convolved _ _ _ r => raised r
  | Pooled _ _ _ r => raised r
  | Projected _ _ r => raised r
  end.

(** The logged library call returned. *)
Definition returned (c : call) : Prop := call_exn c = None.

(** The same of a whole log, as a test. *)
Definition all_returned (cs : list call) : bool :=
  forallb (fun c => match call_exn c with None => true | Some _ => false end) cs.

(** The skip copies at hand, [n] of them, suffice for the unpooling steps
    of the stages. *)
Fixpoint skips_suffice (l : list stage) (n : nat) : bool :=
  match l with
  | [] => true
  | Convolve _ _ :: l => skips_suffice l n
  | PoolDown _ :: l => skips_suffice l (S n)
  | UnpoolUp _ :: l => match n with 0 => false | S n => skips_suffice l n end
  end.

(** The scale transform [s] returns a batch from which [prepare_input] can
    take the three attributes a block is passed: one that has [precomp] and
    [connection]. *)
Definition yields_attrs (d : Data) (s : composed) : Prop :=
  exists d' a, apply_composed s d = Ok d' /\ attr_triple d' = Ok a.

(** The calls of the block [b] in a log: what it was given, and what it
    returned. *)
Definition calls_of (b : block_name) (cs : list call) :
    list (tensor * scale_attr_t * result tensor) :=
  omap (fun c => match c with
                 | Convolved b' x a r => if decide (b' = b) then Some (x, a, r) else None
                 | _ => None
                 end) cs.

(** The blocks of a list of stages. *)
Definition stage_blocks (l : list stage) : list block_name :=
  omap (fun s => match s with Convolve b _ => Some b | _ => None end) l.

(** What the calls [cs] of a block in a run say about the block after the
    run: never called, it is as before; called once, it ran on the state it
    had before the run and is left with the buffers the library returned. *)
Definition block_after (m m' : GEMGCN) (b : block_name)
    (cs : list (tensor * scale_attr_t * result tensor)) : Prop :=
  match cs with
  | [] => blocks m' b = blocks m b
  | [(x, a, r)] =>
      let out := gem_res_net_block (blocks m b) x a.1.1 a.1.2 a.2 in
      r = out.1 /\ blocks m' b = with_running (blocks m b) out.2
  | _ => False
  end.

(** Two states of a module with the same layers, buffers included. *)
Definition same_layers (m m' : GEMGCN) : Prop :=
  (forall b, blocks m b = blocks m' b) /\ (forall p, pools m p = pools m' p).

(** *** The signal a stage is declared for

    Channels, order and pooling level of the features between two stages,
    as the constructor's arguments to the layers have it: a block takes its
    input channels and order and gives its output channels and order, at
    its own scale level; a pooling layer goes one level down and keeps a
    skip copy, an unpooling layer goes back up and the concatenation adds
    the channels of the copy. *)
Record signal := { sig_channels : nat; sig_order : nat; sig_level : nat }.

Definition flow_stage (m : GEMGCN) (s : stage) (st : signal * list signal) :
    option (signal * list signal) :=
  let '(x, skips) := st in
  match s with
  | Convolve b lvl =>
      let c := cfg (blocks m b) in
      if decide (lvl = sig_level x /\ in_channels c = sig_channels x /\
                 in_order c = sig_order x)
      then Some ({| sig_channels := out_channels c; sig_order := out_order c;
                    sig_level := lvl |}, skips)
      else None
  | PoolDown p =>
      let c := pools m p in
      if decide (unpool c = false /\ coarse_lvl c = S (sig_level x))
      then Some ({| sig_channels := sig_channels x; sig_order := sig_order x;
                    sig_level := coarse_lvl c |}, x :: skips)
      else None
  | UnpoolUp p =>
      let c := pools m p in
      match skips with
      | copy :: skips =>
          if decide (unpool c = true /\ coarse_lvl c = sig_level x /\
                     coarse_lvl c = S (sig_level copy) /\ sig_order copy = sig_order x)
          then Some ({| sig_channels := sig_channels x + sig_channels copy;
                        sig_order := sig_order x; sig_level := sig_level copy |}, skips)
          else None
      | [] => None
      end
  end.

Fixpoint flow_stages (m : GEMGCN) (l : list stage) (st : signal * list signal) :
    option (signal * list signal) :=
  match l with
  | [] => Some st
  | s :: l => st' ← flow_stage m s st; flow_stages m l st'
  end.

End Vocabulary.

(** ** A small instance of the library

    Integer scalars.  A batch carries the vertex count of every pooling
    level; a transform records the level it selects and how many vertices
    that level has; a block checks the shape it was declared for and fills
    its output with its weight, counting its calls in its buffers. *)

Module Demo.

(** The default dtype on integers: float32 holds an integer of up to 24
    bits as it is and rounds a longer one to 24 significant bits, ties to
    even. *)
Definition to_float32 (z : Z) : Z :=
  let k := (Z.log2 (Z.abs z) - 23)%Z in
  if (k <=? 0)%Z then z
  else
    let u := (2 ^ k)%Z in
    let q := (Z.abs z / u)%Z in
    let r := (Z.abs z mod u)%Z in
    let up := if (r =? u / 2)%Z then Z.odd q else (u / 2 <? r)%Z in
    (Z.sgn z * ((if up then q + 1 else q) * u))%Z.

#[export] Instance types : GemTypes := {|
  scalar := Z; zero := 0%Z; to_default := to_float32; radius := nat;
  edge_index_t := nat; precomp_t := nat; connection_t := nat;
  geometry := list nat; weights := Z; buffers := nat |}.

Definition with_attrs (d : Data) (ei pc cn : option nat) : Data :=
  {| matrix_features := matrix_features d; geo := geo d;
     condition := condition d; batch := batch d; frame := frame d;
     edge_index := ei; precomp := pc; connection := cn; mesh := mesh d |}.

Definition mask_stub (i : nat) (d : Data) : result Data :=
  Ok (with_attrs d (Some i) (precomp d) (connection d)).

Definition precomp_stub (n_rings max_order : nat) (max_r : nat) (d : Data) : result Data :=
  lvl ← or_raise (LibraryError "no scale mask") (edge_index d);
  n ← or_raise (LibraryError "no such level") (mesh d !! lvl);
  Ok (with_attrs d (Some lvl) (Some n) (Some max_r)).

Definition block_stub (b : block) (x : tensor) (ei : option nat) (pc cn : nat) :
    result tensor * nat :=
  match shape x with
  | [n; c; i] =>
      if decide (n = pc /\ c = in_channels (cfg b) /\ i = 2 * in_order (cfg b) + 1)
      then (Ok {| shape := [n; out_channels (cfg b); 2 * out_order (cfg b) + 1];
                  elems := replicate (n * (out_channels (cfg b) * (2 * out_order (cfg b) + 1)))
                             (learned b) |},
            S (running b))
      else (Raise ShapeError, running b)
  | _ => (Raise ShapeError, running b)
  end.

Definition pool_stub (p : pool_cfg) (x : tensor) (d : Data) : result tensor :=
  let src := if unpool p then coarse_lvl p else coarse_lvl p - 1 in
  let dst := if unpool p then coarse_lvl p - 1 else coarse_lvl p in
  match shape x with
  | [n; c; i] =>
      if decide (mesh d !! src = Some n)
      then n' ← or_raise (LibraryError "no such level") (mesh d !! dst);
           Ok (zeros [n'; c; i])
      else Raise ShapeError
  | _ => Raise ShapeError
  end.

Definition project_stub (x fr : tensor) : result tensor :=
  match shape x, shape fr with
  | [n; c; 3], [n'; 3; 3] =>
      if decide (n = n') then Ok (zeros [n; c; 3]) else Raise ShapeError
  | _, _ => Raise ShapeError
  end.

#[export] Instance library : GemCnn := {|
  scale_mask := mask_stub;
  gem_precomp := precomp_stub;
  gem_res_net_block := block_stub;
  parallel_transport_pool := pool_stub;
  so2_feature_to_ambient_vector := project_stub |}.

(** The module a successful constructor call returns. *)
Definition built (r : result GEMGCN) : match r with Ok _ => GEMGCN | Raise _ => unit end :=
  match r with Ok m => m | Raise _ => tt end.

Definition fresh (b : block_name) : Z * nat := (7%Z, 0).

(** Three scales, one input channel besides geodesics and condition. *)
Definition net : GEMGCN := built (__init__ [1; 2; 3] [1; 3] [1; 1] None None fresh).

(** A batch of [n] vertices with one matrix feature of order one, pooled
    to [n1] and then [n2] vertices. *)
Definition features (n : nat) : tensor :=
  {| shape := [n; 1; 3]; elems := Z.of_nat <$> seq 1 (n * 3) |}.

Definition mesh_batch (n n1 n2 : nat) : Data :=
  {| matrix_features := Some (features n);
     geo := Some ((fun i => 10 * Z.of_nat i)%Z <$> seq 1 n);
     condition := Some [5%Z];
     batch := Some (replicate n 0%Z);
     frame := Some (zeros [n; 3; 3]);
     edge_index := Some 0; precomp := None; connection := None;
     mesh := [n; n1; n2] |}.

(** The same module declared with nine input channels, and with two
    scales only. *)
Definition net_wide : GEMGCN := built (__init__ [1; 2; 3] [1; 9] [1; 1] None None fresh).
Definition net_short : GEMGCN := built (__init__ [1; 2] [1; 3] [1; 1] None None fresh).

(** The batch without its [condition] attribute. *)
Definition without_condition (d : Data) : Data :=
  {| matrix_features := matrix_features d; geo := geo d;
     condition := None; batch := batch d; frame := frame d;
     edge_index := edge_index d; precomp := precomp d;
     connection := connection d; mesh := mesh d |}.


(** Two vertices whose geodesic distances are integers of 25 bits, more
    than a tensor of the default dtype holds. *)
Definition far_batch : Data :=
  {| matrix_features := Some (features 2);
     geo := Some [16777217%Z; 16777219%Z];
     condition := Some [5%Z];
     batch := Some [0%Z; 0%Z];
     frame := Some (zeros [2; 3; 3]);
     edge_index := Some 0; precomp := None; connection := None;
     mesh := [2; 1; 1] |}.

(** The tensor a module assembles from a batch. *)
Definition assembled (m : GEMGCN) (d : Data) : tensor :=
  match feature_assembly m d with
  | Ok x => x
  | Raise _ => zeros []
  end.

(** The scale attributes of [mesh_batch 2 1 1] under [net]: level, vertex
    count and radius of each scale. *)
Definition attrs_211 : list scale_attr_t :=
  [(Some 0, 2, 1); (Some 1, 1, 2); (Some 2, 1, 3)].

(** The vertex count of a pooling level of [mesh_batch n n1 n2]. *)
Definition levels (n n1 n2 : nat) (lvl : nat) : nat := default 0 ([n; n1; n2] !! lvl).

Definition start (m : GEMGCN) : world := {| self := m; calls := [] |}.

(** The same module declared with two input channels, which leaves no
    room for the condition channel, and with a fourth scale. *)
Definition net_plain : GEMGCN := built (__init__ [1; 2; 3] [1; 2] [1; 1] None None fresh).
Definition net_deep : GEMGCN := built (__init__ [1; 2; 3; 4] [1; 3] [1; 1] None None fresh).

(** The batch without its [frame] attribute, and with other pooling
    levels. *)
Definition without_frame (d : Data) : Data :=
  {| matrix_features := matrix_features d; geo := geo d;
     condition := condition d; batch := batch d; frame := None;
     edge_index := edge_index d; precomp := precomp d;
     connection := connection d; mesh := mesh d |}.

Definition with_mesh (d : Data) (g : list nat) : Data :=
  {| matrix_features := matrix_features d; geo := geo d;
     condition := condition d; batch := batch d; frame := frame d;
     edge_index := edge_index d; precomp := precomp d;
     connection := connection d; mesh := g |}.

(** The calls of the complete run of [net] on two vertices, and what a
    layer was given and returned in a call. *)
Definition demo_log : list call :=
  new_calls (start net) (forward (mesh_batch 2 1 1) (start net)).2.

Definition nth_call (i : nat) : call :=
  default (Projected (zeros []) (zeros []) (Raise IndexError)) (demo_log !! i).

Definition call_input (c : call) : tensor :=
  match c with
  | Convolved _ x _ _ | Pooled _ x _ _ | Projected x _ _ => x
  | Transformed _ _ _ => zeros []
  end.

Definition call_output (c : call) : tensor :=
  match c with
  | Convolved _ _ _ (Ok y) | Pooled _ _ _ (Ok y) | Projected _ _ (Ok y) => y
  | _ => zeros []
  end.

End Demo.

(** * Facts about the tensor operations *)

Section TensorFacts.
Context {T : GemTypes}.

Lemma numel3 (n c i : nat) : numel [n; c; i] = n * (c * i).
Proof. unfold numel; simpl. lia. Qed.

Lemma numel2 (c i : nat) : numel [c; i] = c * i.
Proof. unfold numel; simpl. lia. Qed.

Lemma index3_lt (n c i r q k : nat) :
  r < n -> q < c -> k < i -> (r * c + q) * i + k < n * (c * i).
Proof.
  intros Hr Hq Hk.
  assert (r * c + q + 1 <= n * c) as H1 by nia.
  assert ((r * c + q + 1) * i <= n * c * i) as H2 by (by apply Nat.mul_le_mono_r).
  lia.
Qed.

Lemma chunk_fits (n r m : nat) : r < n -> m <= n * m - r * m.
Proof. intros Hr. assert ((r + 1) * m <= n * m) by (apply Nat.mul_le_mono_r; lia). lia. Qed.

(** Looking up in a concatenation of chunks that all have length [L]. *)
Lemma lookup_mjoin_uniform {A} (ls : list (list A)) (L r j : nat) :
  Forall (fun l => length l = L) ls -> j < L ->
  mjoin ls !! (r * L + j) = ls !! r ≫= (fun l => l !! j).
Proof.
  intros Hall Hj. revert r. induction Hall as [|l ls Hl _ IH]; intros r.
  - by rewrite !lookup_nil.
  - destruct r as [|r]; simpl.
    + rewrite lookup_app_l by lia. done.
    + rewrite lookup_app_r by lia.
      replace (L + r * L + j - length l) with (r * L + j) by lia.
      apply IH.
Qed.

Lemma rows_lookup (t : tensor) (n c i r : nat) :
  shape t = [n; c; i] -> r < n ->
  rows t !! r = Some (take (c * i) (drop (r * (c * i)) (elems t))).
Proof.
  intros Hs Hr. unfold rows. rewrite Hs, numel2.
  rewrite list_lookup_fmap, lookup_seq_lt by done. done.
Qed.

Lemma rows_length (t : tensor) (n c i : nat) :
  shape t = [n; c; i] -> length (rows t) = n.
Proof. intros Hs. unfold rows. rewrite Hs. by rewrite length_fmap, length_seq. Qed.

Lemma rows_uniform (t : tensor) (n c i : nat) :
  shape t = [n; c; i] -> tensor_wf t ->
  Forall (fun l => length l = c * i) (rows t).
Proof.
  intros Hs Hwf. unfold tensor_wf in Hwf. rewrite Hs, numel3 in Hwf.
  apply Forall_lookup. intros r l Hl.
  assert (r < n) as Hr.
  { apply lookup_lt_Some in Hl. by rewrite (rows_length t n c i) in Hl. }
  rewrite (rows_lookup t n c i r) in Hl by done. injection Hl as <-.
  rewrite length_take, length_drop. nia.
Qed.

Lemma get3_eq (t : tensor) (n c i r q k : nat) :
  shape t = [n; c; i] -> r < n -> q < c -> k < i ->
  get3 t r q k = elems t !! ((r * c + q) * i + k).
Proof.
  intros Hs Hr Hq Hk. unfold get3. rewrite Hs.
  by rewrite decide_True by done.
Qed.

(** [torch.cat] along the channels, on two tensors of rank three. *)
Lemma cat1_rank3 (a b : tensor) (n ca cb i : nat) :
  shape a = [n; ca; i] -> shape b = [n; cb; i] ->
  cat1 a b = Ok {| shape := [n; ca + cb; i];
                   elems := mjoin (zip_with app (rows a) (rows b)) |}.
Proof.
  intros Ha Hb. unfold cat1. rewrite Ha, Hb.
  rewrite !decide_False by discriminate.
  by rewrite decide_True by done.
Qed.

Lemma cat1_shape (a b x : tensor) (n ca cb i : nat) :
  shape a = [n; ca; i] -> shape b = [n; cb; i] -> cat1 a b = Ok x ->
  shape x = [n; ca + cb; i].
Proof.
  intros Ha Hb Hx. rewrite (cat1_rank3 a b n ca cb i) in Hx by done.
  by injection Hx as <-.
Qed.

Lemma cat1_wf (a b x : tensor) (n ca cb i : nat) :
  shape a = [n; ca; i] -> shape b = [n; cb; i] ->
  tensor_wf a -> tensor_wf b -> cat1 a b = Ok x -> tensor_wf x.
Proof.
  intros Ha Hb Hwa Hwb Hx. rewrite (cat1_rank3 a b n ca cb i) in Hx by done.
  injection Hx as <-. unfold tensor_wf. cbn [shape elems]. rewrite numel3.
  pose proof (rows_uniform a n ca i Ha Hwa) as Ua.
  pose proof (rows_uniform b n cb i Hb Hwb) as Ub.
  pose proof (rows_length a n ca i Ha) as La.
  pose proof (rows_length b n cb i Hb) as Lb.
  revert Ua Ub La Lb. generalize (rows a) (rows b). clear.
  induction n as [|n IH]; intros [|l ls] [|k ks] Ua Ub La Lb; simplify_eq/=; [done|].
  apply Forall_cons in Ua as [? ?]. apply Forall_cons in Ub as [? ?].
  rewrite !length_app. rewrite (IH ls ks) by done. lia.
Qed.

Lemma cat1_get3 (a b x : tensor) (n ca cb i r q k : nat) :
  shape a = [n; ca; i] -> shape b = [n; cb; i] ->
  tensor_wf a -> tensor_wf b -> cat1 a b = Ok x ->
  r < n -> q < ca + cb -> k < i ->
  get3 x r q k = if decide (q < ca) then get3 a r q k else get3 b r (q - ca) k.
Proof.
  intros Ha Hb Hwa Hwb Hx Hr Hq Hk.
  rewrite (get3_eq x n (ca + cb) i) by eauto using cat1_shape.
  rewrite (cat1_rank3 a b n ca cb i) in Hx by done. injection Hx as <-. simpl.
  pose proof (rows_uniform a n ca i Ha Hwa) as Ua.
  pose proof (rows_uniform b n cb i Hb Hwb) as Ub.
  replace ((r * (ca + cb) + q) * i + k) with (r * ((ca + cb) * i) + (q * i + k)) by lia.
  rewrite (lookup_mjoin_uniform _ ((ca + cb) * i)); [| |nia].
  2:{ apply Forall_lookup. intros j l Hl.
      apply lookup_zip_with_Some in Hl as (la & lb & -> & Hla & Hlb).
      rewrite length_app.
      rewrite (Forall_lookup_1 _ _ _ _ Ua Hla), (Forall_lookup_1 _ _ _ _ Ub Hlb). lia. }
  rewrite lookup_zip_with.
  rewrite (rows_lookup a n ca i r), (rows_lookup b n cb i r) by done. simpl.
  unfold tensor_wf in Hwa, Hwb. rewrite Ha, numel3 in Hwa. rewrite Hb, numel3 in Hwb.
  case_decide as Hc.
  - rewrite lookup_app_l by (rewrite length_take, length_drop; nia).
    rewrite lookup_take_lt by nia. rewrite lookup_drop.
    rewrite (get3_eq a n ca i) by done. f_equal. lia.
  - rewrite lookup_app_r by (rewrite length_take, length_drop; nia).
    rewrite length_take, length_drop.
    rewrite Hwa, Nat.min_l by (by apply chunk_fits).
    replace (q * i + k - ca * i) with ((q - ca) * i + k) by nia.
    rewrite lookup_take_lt by nia. rewrite lookup_drop.
    rewrite (get3_eq b n cb i) by (done || lia). f_equal. nia.
Qed.

Lemma divmod_slot (i r k : nat) :
  k < i -> (r * i + k) mod i = k /\ (r * i + k) / i = r.
Proof.
  intros Hk. split.
  - symmetry. apply (Nat.mod_unique _ _ r); lia.
  - symmetry. apply (Nat.div_unique _ _ _ k); lia.
Qed.

Lemma expand_to_length (v vs : list scalar) (n : nat) :
  expand_to v n = Ok vs -> length vs = n.
Proof.
  unfold expand_to. case_decide as Hl.
  - by intros [= <-].
  - destruct v as [|a [|??]]; intros [= <-]. apply length_replicate.
Qed.

Lemma expand_to_same (v vs : list scalar) (n : nat) :
  expand_to v n = Ok vs -> length v = n -> vs = v.
Proof. unfold expand_to. intros Hv Hl. rewrite decide_True in Hv by done. by injection Hv. Qed.

(** A broadcast value is the value itself when the lengths agree, and its
    only element everywhere otherwise. *)
Lemma expand_to_lookup (v vs : list scalar) (n r : nat) :
  expand_to v n = Ok vs -> r < n ->
  vs !! r = if decide (length v = n) then v !! r else v !! 0.
Proof.
  unfold expand_to. intros Hv Hr. case_decide as Hl.
  - by injection Hv as <-.
  - destruct v as [|a [|??]]; simplify_eq/=. by apply lookup_replicate_2.
Qed.

(** [t = torch.zeros((n, 1, i)); t[:, 0, 0] = v] *)
Lemma setitem_00_zeros (n i : nat) (v : list scalar) (t : tensor) :
  setitem_00 (zeros [n; 1; i]) v = Ok t ->
  i <> 0 /\ shape t = [n; 1; i] /\ tensor_wf t /\
  exists vs, expand_to v n = Ok vs /\
    forall r k, r < n -> k < i ->
      get3 t r 0 k = if decide (k = 0) then to_default <$> vs !! r else Some zero.
Proof.
  unfold setitem_00. cbn [zeros shape elems].
  case_decide as Hi; [done|].
  destruct (expand_to v n) as [vs|] eqn:Hvs; [|done]. cbn [mbind result_bind].
  intros [= <-]. split; [lia|]. split; [done|]. split.
  { unfold tensor_wf. cbn [shape elems]. by rewrite length_imap, length_replicate. }
  exists vs. split; [done|]. intros r k Hr Hk.
  rewrite (get3_eq _ n 1 i) by (done || lia). cbn [elems].
  rewrite list_lookup_imap, lookup_replicate_2.
  2:{ pose proof (index3_lt n 1 i r 0 k Hr). cbn in *. lia. }
  cbn [fmap option_fmap option_map]. replace ((r * 1 + 0) * i + k) with (r * i + k) by lia.
  replace (i + 0) with i by lia.
  destruct (divmod_slot i r k Hk) as [-> ->].
  destruct (lookup_lt_is_Some_2 vs r) as [y Hy].
  { by rewrite (expand_to_length v vs n). }
  rewrite Hy. cbn. by repeat case_decide.
Qed.

(** [c[idx]] holds, at every position, the element of [c] the index there
    names. *)
Lemma getitem_index_lookup (c : list scalar) (idx : list Z) (v : list scalar) :
  getitem_index c idx = Ok v ->
  length v = length idx /\
  forall r z, idx !! r = Some z ->
    (0 <= wrap_index (length c) z < Z.of_nat (length c))%Z /\
    v !! r = c !! Z.to_nat (wrap_index (length c) z).
Proof.
  unfold getitem_index. revert v. induction idx as [|z idx IH]; intros v.
  - intros [= <-]. split; [done|]. intros r z. by rewrite lookup_nil.
  - cbn. case_decide as Hz; [|done].
    destruct (c !! Z.to_nat (wrap_index (length c) z)) as [y|] eqn:Hy; [|done]. cbn.
    match goal with |- context [mapM ?f idx] => destruct (mapM f idx) as [v'|] eqn:Hm end;
      [|done].
    cbn. intros [= <-]. destruct (IH v' eq_refl) as [Hlen Hlk].
    split; [cbn; lia|]. intros [|r] z'; cbn.
    + intros [= <-]. done.
    + apply Hlk.
Qed.

End TensorFacts.

(** * Facts about the network *)

Section NetworkFacts.
Context {T : GemTypes} {L : GemCnn}.

Lemma bind_Ok {A B} (r : result A) (f : A -> result B) (b : B) :
  r ≫= f = Ok b -> exists a, r = Ok a /\ f a = Ok b.
Proof. destruct r as [a|e]; [|done]. intros Hb. by exists a. Qed.

(** The library calls of the transform loop, in closed form. *)
Lemma mapM_call_transform (d : Data) (ts : list composed) (w : world) :
  mapM (fun s => call_transform s d) ts w =
  (mapM (fun s => apply_composed s d) ts,
   {| self := self w; calls := calls w ++ (transform_call d <$> attempted d ts) |}).
Proof.
  revert w. induction ts as [|s ts IH]; intros [m l].
  - cbn. by rewrite app_nil_r.
  - cbn. unfold call_transform at 1. cbn.
    unfold mbind at 1, M_bind at 1.
    destruct (apply_composed s d) as [d'|e] eqn:Es; cbn.
    + unfold mbind at 1, M_bind at 1. rewrite IH. cbn.
      rewrite <- app_assoc. cbn. unfold transform_call. rewrite Es.
      by destruct (mapM _ ts).
    + unfold transform_call. by rewrite Es.
Qed.

(** [prepare_input] in closed form: the assembly touches nothing, then
    every scale transform is applied to the batch. *)
Lemma prepare_input_eq (d : Data) (w : world) :
  prepare_input d w =
  match feature_assembly (self w) d with
  | Raise e => (Raise e, w)
  | Ok x =>
      (sa ← scale_attrs (self w) d; Ok (x, sa),
       {| self := self w;
          calls := calls w ++ (transform_call d <$> attempted d (scale_transforms (self w))) |})
  end.
Proof.
  unfold prepare_input, get_self, lift, scale_attrs.
  unfold mbind at 1, M_bind at 1. unfold mbind at 1, M_bind at 1.
  destruct (feature_assembly (self w) d) as [x|e]; [|done].
  unfold mbind at 1, M_bind at 1. rewrite mapM_call_transform.
  destruct (mapM _ (scale_transforms (self w))) as [ds|e]; [|done].
  unfold mbind at 1, M_bind at 1. cbn.
  by destruct (mapM attr_triple ds).
Qed.

(** *** The assembly over its tensor objects *)

Lemma bindA_eq {A B} (m : Asm A) (f : A -> Asm B) (o : objects) :
  (m ≫= f) o =
  match m o with
  | (Ok a, o') => f a o'
  | (Raise e, o') => (Raise e, o')
  end.
Proof. done. Qed.

(** The assembly run out: the tensor it returns as a function of the
    batch, and the objects it leaves, among them the batch as it was given.
    Every assignment of the assembly goes to a tensor it created. *)
Lemma run_assembly_eq (m : GEMGCN) (d : Data) :
  exists cr, run_assembly m d =
    (features ← getattr "matrix_features" (matrix_features d);
     '(N, irreps) ← match shape features with
                    | [N; _; irreps] => Ok (N, irreps)
                    | _ => Raise ValueError
                    end;
     g ← getattr "geo" (geo d);
     geodesics ← setitem_00 (zeros [N; 1; irreps]) g;
     x ← cat1 features geodesics;
     in1 ← or_raise IndexError (in_rep m !! 1);
     width ← size x 1;
     if decide (width < in1) then
       c ← getattr "condition" (condition d);
       v ← getitem c (batch d);
       condition_ ← setitem_00 (zeros [N; 1; irreps]) v;
       cat1 x condition_
     else Ok x,
     {| the_batch := d; created := cr |}).
Proof.
  unfold run_assembly, assemble, cat, assign_00, tensor_of, pure, create, put, batch_attr,
    batch_index, mbind, Asm_bind, mret, Asm_ret, result_bind.
  cbn [the_batch created].
  destruct (matrix_features d) as [f|] eqn:Ef; cbn [getattr or_raise]; [|by eexists].
  destruct (shape f) as [|N [|C [|irreps [|??]]]] eqn:Es; try by eexists.
  cbn [the_batch created length app lookup list_lookup or_raise].
  destruct (geo d) as [g|] eqn:Eg; cbn [getattr or_raise]; [|by eexists].
  destruct (setitem_00 (zeros [N; 1; irreps]) g) as [geodesics|] eqn:Hset; [|by eexists].
  cbn [the_batch created length app lookup list_lookup or_raise insert list_insert].
  rewrite Ef. cbn [getattr or_raise].
  destruct (cat1 f geodesics) as [x|] eqn:Hcat; [|by eexists].
  cbn [the_batch created length app lookup list_lookup or_raise insert list_insert].
  destruct (in_rep m !! 1) as [in1|] eqn:Ein; cbn [or_raise]; [|by eexists].
  destruct (size x 1) as [width|] eqn:Hw; [|by eexists].
  case_decide as Hlt; [|by eexists].
  cbn [the_batch created length app lookup list_lookup or_raise insert list_insert].
  destruct (condition d) as [c|] eqn:Ec; cbn [getattr or_raise]; [|by eexists].
  destruct (getitem c (batch d)) as [v|] eqn:Hv; [|by eexists].
  destruct (setitem_00 (zeros [N; 1; irreps]) v) as [cond|] eqn:Hsetc; [|by eexists].
  cbn [the_batch created length app lookup list_lookup or_raise insert list_insert].
  destruct (cat1 x cond) as [x'|] eqn:Hcat'; [|by eexists].
  cbn [the_batch created length app lookup list_lookup or_raise insert list_insert].
  by eexists.
Qed.

(** [feature_assembly] in closed form. *)
Lemma feature_assembly_eq (m : GEMGCN) (d : Data) :
  feature_assembly m d =
    (features ← getattr "matrix_features" (matrix_features d);
     '(N, irreps) ← match shape features with
                    | [N; _; irreps] => Ok (N, irreps)
                    | _ => Raise ValueError
                    end;
     g ← getattr "geo" (geo d);
     geodesics ← setitem_00 (zeros [N; 1; irreps]) g;
     x ← cat1 features geodesics;
     in1 ← or_raise IndexError (in_rep m !! 1);
     width ← size x 1;
     if decide (width < in1) then
       c ← getattr "condition" (condition d);
       v ← getitem c (batch d);
       condition_ ← setitem_00 (zeros [N; 1; irreps]) v;
       cat1 x condition_
     else Ok x).
Proof. unfold feature_assembly. by destruct (run_assembly_eq m d) as [cr ->]. Qed.

(** The assembly leaves the batch as it was given. *)
Lemma assembly_keeps_batch (m : GEMGCN) (d : Data) : assembly_batch m d = d.
Proof. unfold assembly_batch. by destruct (run_assembly_eq m d) as [cr ->]. Qed.

(** What a successful feature assembly went through. *)
Lemma feature_assembly_inv (m : GEMGCN) (data : Data) (x : tensor) :
  feature_assembly m data = Ok x ->
  exists f N C I g geodesics x0 in1,
    matrix_features data = Some f /\ shape f = [N; C; I] /\
    geo data = Some g /\
    setitem_00 (zeros [N; 1; I]) g = Ok geodesics /\
    cat1 f geodesics = Ok x0 /\
    in_rep m !! 1 = Some in1 /\
    if decide (C + 1 < in1)
    then exists c v cond,
        condition data = Some c /\
        getitem c (batch data) = Ok v /\
        setitem_00 (zeros [N; 1; I]) v = Ok cond /\
        cat1 x0 cond = Ok x
    else x = x0.
Proof.
  rewrite feature_assembly_eq. intros Hx.
  apply bind_Ok in Hx as (f & Hf & Hx).
  destruct (matrix_features data) as [f'|] eqn:Ef; [|done]. injection Hf as ->.
  apply bind_Ok in Hx as ([N I] & HNI & Hx).
  destruct (shape f) as [|N' [|C [|I' [|??]]]] eqn:Es; try done. injection HNI as -> ->.
  apply bind_Ok in Hx as (g & Hg & Hx).
  destruct (geo data) as [g'|] eqn:Eg; [|done]. injection Hg as ->.
  apply bind_Ok in Hx as (geodesics & Hset & Hx).
  apply bind_Ok in Hx as (x0 & Hcat & Hx).
  apply bind_Ok in Hx as (in1 & Hin & Hx).
  destruct (in_rep m !! 1) as [in1'|] eqn:Ein; [|done]. injection Hin as ->.
  apply bind_Ok in Hx as (width & Hw & Hx).
  destruct (setitem_00_zeros _ _ _ _ Hset) as (_ & Hsg & _).
  pose proof (cat1_shape _ _ _ _ _ _ _ Es Hsg Hcat) as Hs0.
  unfold size in Hw. rewrite Hs0 in Hw. injection Hw as <-.
  exists f, N, C, I, g, geodesics, x0, in1. do 6 (split; [done|]).
  case_decide as Hlt.
  - apply bind_Ok in Hx as (c & Hc & Hx).
    destruct (condition data) as [c'|] eqn:Ec; [|done]. injection Hc as ->.
    apply bind_Ok in Hx as (v & Hv & Hx).
    apply bind_Ok in Hx as (cond & Hcond & Hx).
    by exists c, v, cond.
  - by injection Hx as <-.
Qed.

(** *** Running the monad *)

Lemma bindM_eq {A B} (m : M A) (f : A -> M B) (w : world) :
  (m ≫= f) w =
  match m w with
  | (Ok a, w') => f a w'
  | (Raise e, w') => (Raise e, w')
  end.
Proof. done. Qed.

Lemma bindM_ext {A B} (m : M A) (f g : A -> M B) (w : world) :
  (forall a w', m w = (Ok a, w') -> f a w' = g a w') ->
  (m ≫= f) w = (m ≫= g) w.
Proof.
  intros Hfg. rewrite !bindM_eq. destruct (m w) as [[a|e] w']; [|done]. by apply Hfg.
Qed.

Lemma call_block_eq (b : block_name) (x : tensor) (a : option scale_attr_t) (w : world) :
  call_block b x a w =
  match a with
  | None => (Raise IndexError, w)
  | Some a =>
      let r := gem_res_net_block (blocks (self w) b) x a.1.1 a.1.2 a.2 in
      (r.1, {| self := set_running b r.2 (self w);
               calls := calls w ++ [Convolved b x a r.1] |})
  end.
Proof.
  unfold call_block. rewrite bindM_eq. destruct a as [[[ei pc] cn]|]; [|done].
  cbn. unfold run_block. cbn. by destruct (gem_res_net_block _ _ _ _ _).
Qed.

Lemma call_pool_eq (p : pool_name) (x : tensor) (d : Data) (w : world) :
  call_pool p x d w =
  let r := parallel_transport_pool (pools (self w) p) x d in
  (r, {| self := self w; calls := calls w ++ [Pooled p x d r] |}).
Proof. done. Qed.

Lemma call_project_eq (x fr : tensor) (w : world) :
  call_project x fr w =
  let r := so2_feature_to_ambient_vector x fr in
  (r, {| self := self w; calls := calls w ++ [Projected x fr r] |}).
Proof. done. Qed.

Lemma bindM_assoc {A B C} (m : M A) (f : A -> M B) (g : B -> M C) (w : world) :
  ((m ≫= f) ≫= g) w = (m ≫= (fun a => f a ≫= g)) w.
Proof. rewrite !bindM_eq. by destruct (m w) as [[a|e] w']. Qed.

Lemma bindM_ret_l {A B} (a : A) (f : A -> M B) (w : world) :
  (mret a ≫= f) w = f a w.
Proof. done. Qed.

(** One statement of [forward] against one step of the specification's
    pipeline. *)
Ltac sync_step :=
  cbn [spec_stages spec_stage];
  cbv zeta; unfold clone;
  repeat rewrite bindM_assoc;
  apply bindM_ext; intros ? ? _;
  repeat rewrite bindM_assoc;
  rewrite ?bindM_ret_l.

(** [forward] is the specification's pipeline. *)
Lemma forward_spec_forward (d : Data) (w : world) : forward d w = spec_forward d w.
Proof.
  unfold forward, spec_forward.
  apply bindM_ext. intros [x sa] w1 _. unfold spec_pipeline.
  do 20 sync_step. reflexivity.
Qed.

(** *** The module across a run *)

Lemma same_params_refl (m : GEMGCN) : same_params m m.
Proof. by unfold same_params. Qed.

Lemma same_params_sym (m m' : GEMGCN) : same_params m m' -> same_params m' m.
Proof.
  unfold same_params. intros (? & ? & ? & Hp & Hb).
  do 4 (split; [done|]). intros b. by destruct (Hb b) as [-> ->].
Qed.

Lemma same_params_trans (m1 m2 m3 : GEMGCN) :
  same_params m1 m2 -> same_params m2 m3 -> same_params m1 m3.
Proof.
  unfold same_params.
  intros (H1 & H2 & H3 & Hp & Hb) (H1' & H2' & H3' & Hp' & Hb').
  split; [congruence|]. split; [congruence|]. split; [congruence|]. split.
  - intros p. by rewrite Hp.
  - intros b. destruct (Hb b) as [-> ->]. apply Hb'.
Qed.

Lemma same_params_set_running (b : block_name) (r : buffers) (m : GEMGCN) :
  same_params m (set_running b r m).
Proof.
  unfold same_params. do 4 (split; [done|]).
  intros b'. cbn. by case_decide; subst.
Qed.

(** A stage changes buffers only, and logs at most the call of its layer;
    when it returns, it has made that call. *)
Lemma spec_stage_run (d : Data) (sa : list scale_attr_t) (s : stage)
    (st : tensor * list tensor) (w : world) :
  same_params (self w) (self (spec_stage d sa s st w).2) /\
  exists cs, calls (spec_stage d sa s st w).2 = calls w ++ cs /\
    match cs with
    | [] => raises (spec_stage d sa s st w).1
    | [c] => stage_call d sa s c
    | _ => False
    end.
Proof.
  destruct st as [x skips]. destruct s as [b lvl|p|p]; cbn [spec_stage].
  - rewrite bindM_eq, call_block_eq. destruct (sa !! lvl) as [a|] eqn:Ea.
    + cbn zeta. destruct (gem_res_net_block _ _ _ _ _) as [[y|e] buf]; cbn;
        (split; [apply same_params_set_running|]);
        (eexists; split; [reflexivity|]); done.
    + cbn. split; [apply same_params_refl|]. exists []. by rewrite app_nil_r.
  - rewrite bindM_eq, call_pool_eq. cbn zeta.
    destruct (parallel_transport_pool _ _ _) as [y|e]; cbn;
      (split; [apply same_params_refl|]);
      (eexists; split; [reflexivity|]); done.
  - rewrite bindM_eq, call_pool_eq. cbn zeta.
    destruct (parallel_transport_pool _ _ _) as [y|e]; cbn.
    + destruct skips as [|copy skips]; cbn.
      * split; [apply same_params_refl|]. eexists; split; [reflexivity|]; done.
      * rewrite bindM_eq. unfold lift. destruct (cat1 y copy); cbn;
          (split; [apply same_params_refl|]);
          (eexists; split; [reflexivity|]); done.
    + split; [apply same_params_refl|]. eexists; split; [reflexivity|]; done.
Qed.

(** A run of stages changes buffers only, and its log entries are, in
    order, the calls of the stages it got to: of all of them when it
    returns. *)
Lemma spec_stages_run (d : Data) (sa : list scale_attr_t) (l : list stage)
    (st : tensor * list tensor) (w : world) :
  same_params (self w) (self (spec_stages d sa l st w).2) /\
  exists cs, calls (spec_stages d sa l st w).2 = calls w ++ cs /\
    Forall2 (stage_call d sa) (take (length cs) l) cs /\
    (forall st', (spec_stages d sa l st w).1 = Ok st' -> length cs = length l).
Proof.
  revert st w. induction l as [|s l IH]; intros st w.
  - cbn. split; [apply same_params_refl|]. exists []. rewrite app_nil_r.
    split; [done|]. split; [constructor|done].
  - cbn [spec_stages]. rewrite bindM_eq.
    destruct (spec_stage_run d sa s st w) as (Hp & cs & Hcs & Hc).
    destruct (spec_stage d sa s st w) as [[st1|e] w1] eqn:Es; cbn [fst snd] in *.
    + destruct cs as [|c [|??]]; [done| |done].
      destruct (IH st1 w1) as (Hp' & cs' & Hcs' & HF & Hlen).
      split; [by eapply same_params_trans|].
      exists (c :: cs'). split; [by rewrite Hcs', Hcs, <- app_assoc|].
      split; [cbn; by constructor|].
      intros st' Hst'. cbn. f_equal. by eapply Hlen.
    + split; [done|]. exists cs. split; [done|]. split; [|done].
      destruct cs as [|c [|??]]; [constructor| |done].
      cbn. rewrite take_0. by repeat constructor.
Qed.

Lemma spec_stages_cons (d : Data) (sa : list scale_attr_t) (s : stage) (l : list stage)
    (st : tensor * list tensor) (w : world) :
  spec_stages d sa (s :: l) st w =
  match spec_stage d sa s st w with
  | (Ok st1, w1) => spec_stages d sa l st1 w1
  | (Raise e, w1) => (Raise e, w1)
  end.
Proof. done. Qed.

(** [forward] in stages: assembly, transforms, the pipeline, projection. *)
Lemma forward_unfold (d : Data) (w : world) :
  forward d w =
  match feature_assembly (self w) d with
  | Raise e => (Raise e, w)
  | Ok x =>
      let w1 := {| self := self w;
                   calls := calls w ++
                     (transform_call d <$> attempted d (scale_transforms (self w))) |} in
      match scale_attrs (self w) d with
      | Raise e => (Raise e, w1)
      | Ok sa =>
          match spec_stages d sa spec_pipeline (x, []) w1 with
          | (Raise e, w2) => (Raise e, w2)
          | (Ok st, w2) =>
              match getattr "frame" (frame d) with
              | Raise e => (Raise e, w2)
              | Ok fr =>
                  let r := so2_feature_to_ambient_vector st.1 fr in
                  (squeeze <$> r,
                   {| self := self w2; calls := calls w2 ++ [Projected st.1 fr r] |})
              end
          end
      end
  end.
Proof.
  rewrite forward_spec_forward. unfold spec_forward.
  rewrite bindM_eq, prepare_input_eq.
  destruct (feature_assembly (self w) d) as [x|e]; [|done].
  destruct (scale_attrs (self w) d) as [sa|e]; [|done]. cbn [mbind result_bind].
  rewrite bindM_eq.
  destruct (spec_stages d sa spec_pipeline (x, []) _) as [[st|e] w2]; [|done].
  rewrite bindM_eq. unfold lift at 1.
  destruct (getattr "frame" (frame d)) as [fr|e]; [|done].
  rewrite bindM_eq, call_project_eq. cbn zeta.
  by destruct (so2_feature_to_ambient_vector st.1 fr).
Qed.

(** * The feature assembly *)

(** What the assembly builds, stage by stage: [x0] is the matrix features
    with the geodesic channel, and the result is [x0] itself or [x0] with
    the condition channel. *)
Lemma feature_assembly_channels (m : GEMGCN) (d : Data) (x f : tensor) (N C I in1 : nat) :
  feature_assembly m d = Ok x ->
  matrix_features d = Some f -> shape f = [N; C; I] -> tensor_wf f ->
  in_rep m !! 1 = Some in1 ->
  exists g gs x0,
    geo d = Some g /\ expand_to g N = Ok gs /\
    shape x0 = [N; C + 1; I] /\ tensor_wf x0 /\
    (forall n c k, n < N -> c < C -> k < I -> get3 x0 n c k = get3 f n c k) /\
    (forall n k, n < N -> k < I ->
       get3 x0 n C k = if decide (k = 0) then to_default <$> gs !! n else Some zero) /\
    if decide (C + 1 < in1)
    then exists c v vs cond,
        condition d = Some c /\
        getitem c (batch d) = Ok v /\ expand_to v N = Ok vs /\
        shape cond = [N; 1; I] /\ tensor_wf cond /\
        (forall n k, n < N -> k < I ->
           get3 cond n 0 k = if decide (k = 0) then to_default <$> vs !! n else Some zero) /\
        cat1 x0 cond = Ok x
    else x = x0.
Proof.
  intros Hx Hf Hs Hwf Hin.
  apply feature_assembly_inv in Hx
    as (f' & N' & C' & I' & g & geodesics & x0 & in1' & Hf' & Hs' & Hg & Hset & Hcat & Hin' & Hc).
  simplify_eq. rewrite Hs in Hs'. simplify_eq.
  destruct (setitem_00_zeros _ _ _ _ Hset) as (HI & Hsg & Hwg & gs & Hgs & Hget).
  exists g, gs, x0. split; [done|]. split; [done|].
  split; [exact (cat1_shape _ _ _ _ _ _ _ Hs Hsg Hcat)|].
  split; [exact (cat1_wf _ _ _ _ _ _ _ Hs Hsg Hwf Hwg Hcat)|]. split; [|split].
  - intros n c k Hn Hc' Hk.
    rewrite (cat1_get3 _ _ _ _ _ _ _ n c k Hs Hsg Hwf Hwg Hcat) by (done || lia).
    by rewrite decide_True by done.
  - intros n k Hn Hk.
    rewrite (cat1_get3 _ _ _ _ _ _ _ n C' k Hs Hsg Hwf Hwg Hcat) by (done || lia).
    rewrite decide_False by lia. replace (C' - C') with 0 by lia. by apply Hget.
  - case_decide as Hlt; [|done].
    destruct Hc as (c & v & cond & Hc & Hv & Hsetc & Hcatc).
    destruct (setitem_00_zeros _ _ _ _ Hsetc) as (_ & Hsc & Hwc & vs & Hvs & Hgetc).
    by exists c, v, vs, cond.
Qed.

(** C3.  The assembled tensor holds, channel by channel and in this order:
    the matrix features; the geodesic channel, zero but for its scalar slot
    (component 0), which holds [data.geo] (broadcast if it has a single
    entry) as a tensor of the default dtype stores it; and, if and only if
    the declared [in_rep[1]] exceeds the width of those two together, the
    condition channel, zero but for its scalar slot, which holds
    [data.condition[data.batch]], stored likewise, where a batch without
    [batch] gives [data.condition] as it is.  The assembly writes into
    tensors of its own only: it leaves the batch as it was given.
    Preparing the input leaves the module as it is, and every library call
    it makes is a scale transform applied to the batch as it was given. *)
Theorem feature_assembly_layout (d : Data) (w : world) (x f : tensor) (N C I in1 : nat) :
  feature_assembly (self w) d = Ok x ->
  matrix_features d = Some f -> shape f = [N; C; I] -> tensor_wf f ->
  in_rep (self w) !! 1 = Some in1 ->
  (exists g gs,
     geo d = Some g /\ expand_to g N = Ok gs /\ (length g = N -> gs = g) /\
     (forall n c k, n < N -> c < C -> k < I -> get3 x n c k = get3 f n c k) /\
     (forall n k, n < N -> k < I ->
        get3 x n C k = if decide (k = 0) then to_default <$> gs !! n else Some zero)) /\
  (if decide (C + 1 < in1)
   then shape x = [N; C + 2; I] /\
        exists c v vs,
          condition d = Some c /\
          getitem c (batch d) = Ok v /\
          match batch d with
          | Some b =>
              length v = length b /\
              forall n z, b !! n = Some z ->
                v !! n = c !! Z.to_nat (wrap_index (length c) z)
          | None => v = c
          end /\
          expand_to v N = Ok vs /\ (length v = N -> vs = v) /\
          forall n k, n < N -> k < I ->
            get3 x n (C + 1) k =
              if decide (k = 0) then to_default <$> vs !! n else Some zero
   else shape x = [N; C + 1; I]) /\
  assembly_batch (self w) d = d /\
  self (prepare_input d w).2 = self w /\
  Forall (fun c => exists s, c = transform_call d s) (new_calls w (prepare_input d w).2).
Proof.
  intros Hx Hf Hs Hwf Hin.
  destruct (feature_assembly_channels _ _ _ _ _ _ _ _ Hx Hf Hs Hwf Hin)
    as (g & gs & x0 & Hg & Hgs & Hs0 & Hw0 & Hfeat & Hgeo & Hc).
  split; [|split; [|split; [|split]]].
  - exists g, gs. split; [done|]. split; [done|].
    split; [by apply expand_to_same|].
    case_decide as Hlt.
    + destruct Hc as (c & v & vs & cond & _ & _ & _ & Hsc & Hwc & _ & Hcat).
      split.
      * intros n c' k Hn Hc' Hk.
        rewrite (cat1_get3 _ _ _ _ _ _ _ n c' k Hs0 Hsc Hw0 Hwc Hcat) by (done || lia).
        rewrite decide_True by lia. by apply Hfeat.
      * intros n k Hn Hk.
        rewrite (cat1_get3 _ _ _ _ _ _ _ n C k Hs0 Hsc Hw0 Hwc Hcat) by (done || lia).
        rewrite decide_True by lia. by apply Hgeo.
    + by subst x0.
  - case_decide as Hlt; [|by subst x0].
    destruct Hc as (c & v & vs & cond & Hc & Hv & Hvs & Hsc & Hwc & Hcond & Hcat).
    split.
    { rewrite (cat1_shape _ _ _ _ _ _ _ Hs0 Hsc Hcat). do 2 f_equal. lia. }
    exists c, v, vs. do 2 (split; [done|]). split.
    { destruct (batch d) as [b|]; cbn [getitem] in Hv.
      - destruct (getitem_index_lookup _ _ _ Hv) as [Hlv Hlk].
        split; [done|]. intros n z Hz. by apply Hlk.
      - by injection Hv as <-. }
    split; [done|].
    split; [by apply expand_to_same|].
    intros n k Hn Hk.
    rewrite (cat1_get3 _ _ _ _ _ _ _ n (C + 1) k Hs0 Hsc Hw0 Hwc Hcat) by (done || lia).
    rewrite decide_False by lia. replace (C + 1 - (C + 1)) with 0 by lia. by apply Hcond.
  - apply assembly_keeps_batch.
  - rewrite prepare_input_eq, Hx. done.
  - rewrite prepare_input_eq, Hx. cbn [snd]. unfold new_calls. cbn [calls].
    rewrite drop_app_length. apply Forall_fmap, Forall_forall. intros s _. by exists s.
Qed.

(** * The constructor *)

(** The wiring the constructor builds. *)
Lemma init_inv (radii : list radius) (in_rep_ out_rep_ : list nat)
    (max_order n_rings_ : option nat) (fresh : block_name -> weights * buffers)
    (m : GEMGCN) :
  __init__ radii in_rep_ out_rep_ max_order n_rings_ fresh = Ok m ->
  exists in1 in0 out1 out0,
    in_rep_ !! 1 = Some in1 /\ in_rep_ !! 0 = Some in0 /\
    out_rep_ !! 1 = Some out1 /\ out_rep_ !! 0 = Some out0 /\
    in_rep m = in_rep_ /\ out_rep m = out_rep_ /\
    (forall b,
       let mo := default 2 max_order in
       in_channels (cfg (blocks m b)) =
         match b with conv01 => in1 | conv13 | conv03 => 52 | _ => 26 end /\
       out_channels (cfg (blocks m b)) =
         match b with conv06 => out1 | _ => 26 end /\
       in_order (cfg (blocks m b)) =
         match b with conv01 => in0 | _ => mo end /\
       out_order (cfg (blocks m b)) =
         match b with conv06 => out0 | _ => mo end) /\
    (forall p,
       pools m p =
         match p with
         | pool1 => ParallelTransportPool 1 false
         | pool2 => ParallelTransportPool 2 false
         | unpool2 => ParallelTransportPool 2 true
         | unpool1 => ParallelTransportPool 1 true
         end).
Proof.
  unfold __init__. intros Hm.
  destruct (in_rep_ !! 1) as [in1|]; [|done].
  destruct (in_rep_ !! 0) as [in0|]; [|done].
  destruct (out_rep_ !! 1) as [out1|]; [|done].
  destruct (out_rep_ !! 0) as [out0|]; [|done].
  cbn in Hm. injection Hm as <-. exists in1, in0, out1, out0.
  do 6 (split; [done|]). split; [|done]. by intros [].
Qed.

(** C10.  Whatever the constructor is given, every block is built with
    band_limit 2, num_samples 7, checkpoint and batch_norm switched on, and
    the hidden width 26: every block puts out 26 channels but the last
    ([conv06], which puts out [out_rep[1]]), and takes in 26 but the first
    ([conv01], which takes [in_rep[1]]) and the two after a skip
    concatenation ([conv13], [conv03], which take 26 + 26).  Of the keyword
    arguments only [n_rings] follows the constructor's argument. *)
Theorem init_fixed_hyperparameters (radii : list radius) (in_rep_ out_rep_ : list nat)
    (max_order n_rings_ : option nat) (fresh : block_name -> weights * buffers)
    (m : GEMGCN) (b : block_name) :
  __init__ radii in_rep_ out_rep_ max_order n_rings_ fresh = Ok m ->
  let c := cfg (blocks m b) in
  band_limit (block_kwargs c) = 2 /\
  num_samples (block_kwargs c) = 7 /\
  checkpoint (block_kwargs c) = true /\
  batch_norm (block_kwargs c) = true /\
  n_rings (block_kwargs c) = default 2 n_rings_ /\
  (if decide (b = conv06) then out_rep_ !! 1 = Some (out_channels c)
   else out_channels c = 26) /\
  (if decide (b = conv01) then in_rep_ !! 1 = Some (in_channels c)
   else if decide (b = conv13 \/ b = conv03) then in_channels c = 26 + 26
   else in_channels c = 26).
Proof.
  unfold __init__. intros Hm.
  destruct (in_rep_ !! 1) as [in1|]; [|done].
  destruct (in_rep_ !! 0) as [in0|]; [|done].
  destruct (out_rep_ !! 1) as [out1|]; [|done].
  destruct (out_rep_ !! 0) as [out0|]; [|done].
  cbn in Hm. injection Hm as <-.
  destruct b; cbn; repeat split; repeat case_decide; naive_solver.
Qed.

Lemma init_scale_transforms (radii : list radius) (in_rep_ out_rep_ : list nat)
    (max_order n_rings_ : option nat) (fresh : block_name -> weights * buffers)
    (m : GEMGCN) :
  __init__ radii in_rep_ out_rep_ max_order n_rings_ fresh = Ok m ->
  scale_transforms m =
  imap (fun i r => Compose [ScaleMask i;
                            GemPrecomp (default 2 n_rings_) (default 2 max_order) r]) radii.
Proof.
  unfold __init__. intros Hm.
  destruct (in_rep_ !! 1) as [in1|]; [|done].
  destruct (in_rep_ !! 0) as [in0|]; [|done].
  destruct (out_rep_ !! 1) as [out1|]; [|done].
  destruct (out_rep_ !! 0) as [out0|]; [|done].
  cbn in Hm. by injection Hm as <-.
Qed.

(** * Failures *)

Lemma mapM_result_Forall2 {A B} (f : A -> result B) (l : list A) (k : list B) :
  mapM f l = Ok k -> Forall2 (fun a b => f a = Ok b) l k.
Proof.
  revert k. induction l as [|a l IH]; intros k; cbn.
  - intros [= <-]. constructor.
  - destruct (f a) as [b|] eqn:Ea; [|done]. cbn.
    destruct (mapM f l) as [k'|]; [|done]. cbn. intros [= <-].
    constructor; [done|]. by apply IH.
Qed.

Lemma scale_attrs_length (m : GEMGCN) (d : Data) (sa : list scale_attr_t) :
  scale_attrs m d = Ok sa -> length sa = length (scale_transforms m).
Proof.
  unfold scale_attrs. intros Hsa. apply bind_Ok in Hsa as (ds & Hds & Hsa).
  apply mapM_result_Forall2, Forall2_length in Hds.
  apply mapM_result_Forall2, Forall2_length in Hsa. lia.
Qed.





(** * The order of the pipeline *)

Lemma attempted_all (d : Data) (ts : list composed) (ds : list Data) :
  mapM (fun s => apply_composed s d) ts = Ok ds -> attempted d ts = ts.
Proof.
  revert ds. induction ts as [|s ts IH]; intros ds; [done|]. cbn.
  destruct (apply_composed s d) as [d'|]; [|done]. cbn.
  destruct (mapM _ ts) as [ds'|] eqn:Hds; [|done]. intros _. f_equal. by eapply IH.
Qed.

Lemma attempted_length (d : Data) (ts : list composed) :
  length (attempted d ts) <= length ts.
Proof.
  induction ts as [|s ts IH]; cbn; [done|].
  destruct (apply_composed s d); cbn; lia.
Qed.

Lemma scale_attrs_attempted (m : GEMGCN) (d : Data) (sa : list scale_attr_t) :
  scale_attrs m d = Ok sa -> attempted d (scale_transforms m) = scale_transforms m.
Proof.
  unfold scale_attrs. intros Hsa. apply bind_Ok in Hsa as (ds & Hds & _).
  by eapply attempted_all.
Qed.

Lemma transform_calls_kinds (d : Data) (l : list composed) :
  kind_of <$> (transform_call d <$> l) = replicate (length l) KTransform.
Proof. induction l as [|s l IH]; cbn; [done|]. by rewrite IH. Qed.

Lemma stage_call_kind (d : Data) (sa : list scale_attr_t) (s : stage) (c : call) :
  stage_call d sa s c -> kind_of c = stage_kind s.
Proof. destruct s, c; cbn; try done; by intros [-> _]. Qed.

Lemma stage_calls_kinds (d : Data) (sa : list scale_attr_t) (l : list stage) (cs : list call) :
  Forall2 (stage_call d sa) l cs -> kind_of <$> cs = stage_kind <$> l.
Proof.
  induction 1 as [|s c l cs Hc _ IH]; cbn; [done|].
  by rewrite IH, (stage_call_kind d sa s c).
Qed.

Lemma replicate_prefix {A} (x : A) (k n : nat) (l : list A) :
  k <= n -> replicate k x `prefix_of` replicate n x ++ l.
Proof.
  intros Hk. exists (replicate (n - k) x ++ l).
  rewrite app_assoc, <- replicate_add. do 2 f_equal. lia.
Qed.

(** The log of a run of stages that returns. *)
Lemma spec_stages_log (d : Data) (sa : list scale_attr_t) (l : list stage)
    (st st' : tensor * list tensor) (w w' : world) :
  spec_stages d sa l st w = (Ok st', w') ->
  exists cs, calls w' = calls w ++ cs /\ stages_log d sa l st cs st'.
Proof.
  revert st w. induction l as [|s l IH]; intros [x skips] w.
  - cbn. intros [= <- <-]. exists []. rewrite app_nil_r. split; [done|constructor].
  - cbn [spec_stages]. rewrite bindM_eq.
    destruct s as [b lvl|p|p]; cbn [spec_stage].
    + rewrite bindM_eq, call_block_eq. destruct (sa !! lvl) as [a|] eqn:Ea; [|done].
      cbn zeta. destruct (gem_res_net_block _ _ _ _ _) as [[y|e] buf]; [|done].
      cbn. intros Hrun. apply IH in Hrun as (cs & Hcs & Hlog). cbn in Hcs.
      exists (Convolved b x a (Ok y) :: cs). rewrite Hcs, <- app_assoc.
      split; [done|]. by constructor.
    + rewrite bindM_eq, call_pool_eq. cbn zeta.
      destruct (parallel_transport_pool _ _ _) as [y|e]; [|done].
      cbn. intros Hrun. apply IH in Hrun as (cs & Hcs & Hlog). cbn in Hcs.
      exists (Pooled p x d (Ok y) :: cs). rewrite Hcs, <- app_assoc.
      split; [done|]. by constructor.
    + rewrite bindM_eq, call_pool_eq. cbn zeta.
      destruct (parallel_transport_pool _ _ _) as [y|e]; [|done].
      destruct skips as [|copy skips]; [done|]. cbn.
      rewrite bindM_eq. unfold lift. destruct (cat1 y copy) as [z|] eqn:Ez; [|done].
      cbn. intros Hrun. apply IH in Hrun as (cs & Hcs & Hlog). cbn in Hcs.
      exists (Pooled p x d (Ok y) :: cs). rewrite Hcs, <- app_assoc.
      split; [done|]. by econstructor.
Qed.

Ltac log_step H :=
  inversion H; clear H; subst.

(** The log of the U-Net stages, written out: blocks at the native
    resolution use the attributes [a0] of scale 0, those behind the first
    pooling step [a1], those behind the second [a2]; [copy0] and [copy1] are
    what [pool1] and [pool2] are given, and the blocks right behind
    [unpool1] and [unpool2] are given them back, concatenated to what the
    unpooling returned. *)
Lemma unet_log (d : Data) (sa : list scale_attr_t) (x0 : tensor)
    (cs : list call) (st' : tensor * list tensor) :
  stages_log d sa spec_pipeline (x0, []) cs st' ->
  exists a0 a1 a2 x1 copy0 p1 x3 copy1 p2 x5 x6 u2 z2 x8 x9 x10 x11 u1 z1 x13 x14 x15 x16,
    sa !! 0 = Some a0 /\ sa !! 1 = Some a1 /\ sa !! 2 = Some a2 /\
    cat1 u2 copy1 = Ok z2 /\ cat1 u1 copy0 = Ok z1 /\
    st' = (x16, []) /\
    cs = [ Convolved conv01 x0 a0 (Ok x1); Convolved conv02 x1 a0 (Ok copy0);
           Pooled pool1 copy0 d (Ok p1);
           Convolved conv11 p1 a1 (Ok x3); Convolved conv12 x3 a1 (Ok copy1);
           Pooled pool2 copy1 d (Ok p2);
           Convolved conv21 p2 a2 (Ok x5); Convolved conv22 x5 a2 (Ok x6);
           Pooled unpool2 x6 d (Ok u2);
           Convolved conv13 z2 a1 (Ok x8); Convolved conv14 x8 a1 (Ok x9);
           Convolved conv15 x9 a1 (Ok x10); Convolved conv16 x10 a1 (Ok x11);
           Pooled unpool1 x11 d (Ok u1);
           Convolved conv03 z1 a0 (Ok x13); Convolved conv04 x13 a0 (Ok x14);
           Convolved conv05 x14 a0 (Ok x15); Convolved conv06 x15 a0 (Ok x16) ].
Proof.
  unfold spec_pipeline. intros Hlog.
  do 19 (match goal with H : stages_log _ _ _ _ _ _ |- _ => log_step H end).
  simplify_eq. by repeat eexists.
Qed.

(** What a run returns, and the module it leaves, depend on the module it
    starts from, not on the call log. *)
Lemma spec_stage_log_irrelevant (d : Data) (sa : list scale_attr_t) (s : stage)
    (st : tensor * list tensor) (w w' : world) :
  self w = self w' ->
  (spec_stage d sa s st w).1 = (spec_stage d sa s st w').1 /\
  self (spec_stage d sa s st w).2 = self (spec_stage d sa s st w').2.
Proof.
  intros Hself. destruct st as [x skips]. destruct s as [b lvl|p|p]; cbn [spec_stage].
  - rewrite !bindM_eq, !call_block_eq, Hself. destruct (sa !! lvl) as [a|]; [|done].
    cbn zeta. by destruct (gem_res_net_block _ _ _ _ _) as [[y|e] buf].
  - rewrite !bindM_eq, !call_pool_eq, Hself. cbn zeta.
    by destruct (parallel_transport_pool _ _ _).
  - rewrite !bindM_eq, !call_pool_eq, Hself. cbn zeta.
    destruct (parallel_transport_pool _ _ _) as [y|e]; [|done].
    destruct skips as [|copy skips]; [done|].
    rewrite !bindM_eq. unfold lift. by destruct (cat1 y copy).
Qed.

Lemma spec_stages_log_irrelevant (d : Data) (sa : list scale_attr_t) (l : list stage)
    (st : tensor * list tensor) (w w' : world) :
  self w = self w' ->
  (spec_stages d sa l st w).1 = (spec_stages d sa l st w').1.
Proof.
  revert st w w'. induction l as [|s l IH]; intros st w w' Hself; [done|].
  rewrite !spec_stages_cons.
  destruct (spec_stage_log_irrelevant d sa s st w w' Hself) as [Hr Hs].
  destruct (spec_stage d sa s st w) as [r w1].
  destruct (spec_stage d sa s st w') as [r' w1'].
  cbn [fst snd] in *. subst r'. destruct r as [st1|e]; [|done]. by apply IH.
Qed.

Lemma forward_log_irrelevant (d : Data) (w w' : world) :
  self w = self w' -> (forward d w).1 = (forward d w').1.
Proof.
  destruct w as [m l], w' as [m' l']. cbn [self]. intros <-.
  rewrite !forward_unfold. cbn [self calls].
  destruct (feature_assembly m d) as [x|e]; [|done]. cbn zeta.
  destruct (scale_attrs m d) as [sa|e]; [|done].
  pose proof (spec_stages_log_irrelevant d sa spec_pipeline (x, [])
                {| self := m;
                   calls := l ++ (transform_call d <$> attempted d (scale_transforms m)) |}
                {| self := m;
                   calls := l' ++ (transform_call d <$> attempted d (scale_transforms m)) |}
                eq_refl) as Hst.
  destruct (spec_stages d sa spec_pipeline (x, []) _) as [r w2].
  destruct (spec_stages d sa spec_pipeline (x, []) _) as [r' w2'].
  cbn [fst snd] in *. subst r'. destruct r as [st'|e]; [|done].
  by destruct (getattr "frame" (frame d)).
Qed.

(** A run of stages, however it ends: its log holds the calls of the
    stages it got to; when it raises, the last of these calls raised the
    exception, or every call returned and the next stage is a block whose
    scale level has no attributes, or every call returned and the
    concatenation behind the last of them, an unpooling step, failed. *)
Lemma spec_stages_outcome (d : Data) (sa : list scale_attr_t) (l : list stage)
    (st : tensor * list tensor) (w : world) :
  skips_suffice l (length st.2) = true ->
  exists cs, calls (spec_stages d sa l st w).2 = calls w ++ cs /\
    Forall2 (stage_call d sa) (take (length cs) l) cs /\
    match (spec_stages d sa l st w).1 with
    | Ok _ => Forall returned cs /\ length cs = length l
    | Raise e =>
        (exists done_ c, cs = done_ ++ [c] /\ Forall returned done_ /\ call_exn c = Some e) \/
        (Forall returned cs /\
         exists b lvl, l !! length cs = Some (Convolve b lvl) /\ sa !! lvl = None /\
                       e = IndexError) \/
        (Forall returned cs /\
         exists n p x u copy,
           length cs = S n /\ l !! n = Some (UnpoolUp p) /\
           last cs = Some (Pooled p x d (Ok u)) /\ cat1 u copy = Raise e)
    end.
Proof.
  revert st w. induction l as [|s l IH]; intros [x skips] w Hskips.
  { exists []. cbn. rewrite app_nil_r. split; [done|]. split; [constructor|]. done. }
  assert (forall c st1 w1,
    skips_suffice l (length st1.2) = true ->
    calls w1 = calls w ++ [c] -> returned c -> stage_call d sa s c ->
    exists cs, calls (spec_stages d sa l st1 w1).2 = calls w ++ cs /\
      Forall2 (stage_call d sa) (take (length cs) (s :: l)) cs /\
      match (spec_stages d sa l st1 w1).1 with
      | Ok _ => Forall returned cs /\ length cs = length (s :: l)
      | Raise e =>
          (exists done_ c, cs = done_ ++ [c] /\ Forall returned done_ /\
                           call_exn c = Some e) \/
          (Forall returned cs /\
           exists b lvl, (s :: l) !! length cs = Some (Convolve b lvl) /\
                         sa !! lvl = None /\ e = IndexError) \/
          (Forall returned cs /\
           exists n p x u copy,
             length cs = S n /\ (s :: l) !! n = Some (UnpoolUp p) /\
             last cs = Some (Pooled p x d (Ok u)) /\ cat1 u copy = Raise e)
      end) as Hnext.
  { intros c st1 w1 Hsk1 Hw1 Hc Hsc.
    destruct (IH st1 w1 Hsk1) as (cs & Hcs & HF & Hout).
    exists (c :: cs). split; [by rewrite Hcs, Hw1, <- app_assoc|].
    split; [cbn; by constructor|].
    destruct (spec_stages d sa l st1 w1).1 as [st'|e].
    - destruct Hout as [Hret Hlen]. split; [by constructor|]. cbn. by rewrite Hlen.
    - destruct Hout as [(done_ & c' & -> & Hd & He)|[(Hret & b & lvl & Hl & Hs & ->)|
                         (Hret & n & p & x' & u & copy & Hlen & Hl & Hlast & Hcat)]].
      + left. exists (c :: done_), c'. split; [done|]. split; [by constructor|done].
      + right; left. split; [by constructor|]. by exists b, lvl.
      + right; right. split; [by constructor|]. exists (S n), p, x', u, copy.
        split; [cbn; by rewrite Hlen|]. split; [done|]. split; [|done].
        by rewrite last_cons, Hlast. }
  rewrite spec_stages_cons.
  destruct s as [b lvl|p|p]; cbn [spec_stage]; cbn [snd] in Hskips.
  - rewrite bindM_eq, call_block_eq. destruct (sa !! lvl) as [a|] eqn:Ea.
    + cbn zeta. destruct (gem_res_net_block _ _ _ _ _) as [[y|e] buf] eqn:Eb; cbn [fst snd].
      * unfold mret, M_ret. apply (Hnext (Convolved b x a (Ok y))); done.
      * exists [Convolved b x a (Raise e)]. cbn. split; [done|].
        split; [rewrite take_0; by repeat constructor|].
        left. by exists [], (Convolved b x a (Raise e)).
    + exists []. cbn. rewrite app_nil_r. split; [done|]. split; [constructor|].
      right; left. split; [constructor|]. by exists b, lvl.
  - rewrite bindM_eq, call_pool_eq. cbn zeta.
    destruct (parallel_transport_pool _ _ _) as [y|e] eqn:Ep.
    + unfold mret, M_ret. apply (Hnext (Pooled p x d (Ok y))); done.
    + exists [Pooled p x d (Raise e)]. cbn. split; [done|].
      split; [rewrite take_0; by repeat constructor|].
      left. eexists [], _. split; [done|]. split; [constructor|]. done.
  - destruct skips as [|copy skips]; [done|]. cbn in Hskips.
    rewrite bindM_eq, call_pool_eq. cbn zeta.
    destruct (parallel_transport_pool _ _ _) as [y|e] eqn:Ep.
    + rewrite bindM_eq. unfold lift. destruct (cat1 y copy) as [z|e] eqn:Ecat.
      * unfold mret, M_ret. apply (Hnext (Pooled p x d (Ok y))); done.
      * exists [Pooled p x d (Ok y)]. cbn. split; [done|].
        split; [rewrite take_0; by repeat constructor|].
        right; right. split; [by repeat constructor|]. by exists 0, p, x, y, copy.
    + exists [Pooled p x d (Raise e)]. cbn. split; [done|].
      split; [rewrite take_0; by repeat constructor|].
      left. eexists [], _. split; [done|]. split; [constructor|]. done.
Qed.

(** The transforms [prepare_input] gets to call when one of them raises:
    those before it returned, and it is the last. *)
Lemma attempted_raise (d : Data) (ts : list composed) (e : exn) :
  mapM (fun s => apply_composed s d) ts = Raise e ->
  exists done_ s, attempted d ts = done_ ++ [s] /\
    Forall (fun s' => returned (transform_call d s')) done_ /\
    apply_composed s d = Raise e.
Proof.
  induction ts as [|s ts IH]; [done|]. cbn.
  destruct (apply_composed s d) as [d'|e'] eqn:Es; cbn.
  - destruct (mapM _ ts) as [ds|e''] eqn:Hds; [done|]. cbn. intros [= ->].
    destruct (IH eq_refl) as (done_ & s' & -> & Hd & Hs').
    exists (s :: done_), s'. split; [done|]. split; [|done].
    constructor; [|done]. unfold returned, transform_call. cbn. by rewrite Es.
  - intros [= ->]. by exists [], s.
Qed.

Lemma transforms_returned (d : Data) (ts : list composed) (ds : list Data) :
  mapM (fun s => apply_composed s d) ts = Ok ds ->
  Forall returned (transform_call d <$> ts).
Proof.
  intros Hds. apply mapM_result_Forall2 in Hds.
  apply Forall_fmap, Forall_forall. intros s Hs.
  apply list_elem_of_lookup in Hs as [i Hi].
  destruct (Forall2_lookup_l _ _ _ _ _ Hds Hi) as (d' & _ & Hd').
  unfold returned, transform_call. cbn. by rewrite Hd'.
Qed.

Lemma stage_calls_levels (d : Data) (sa : list scale_attr_t) (l : list stage)
    (cs : list call) (j : nat) (b : block_name) (lvl : nat) :
  Forall2 (stage_call d sa) l cs -> l !! j = Some (Convolve b lvl) -> is_Some (sa !! lvl).
Proof.
  intros HF Hl. destruct (Forall2_lookup_l _ _ _ _ _ HF Hl) as (c & _ & Hc).
  destruct c; cbn in Hc; try done. destruct Hc as [_ Ha]. by eexists.
Qed.

Lemma stage_calls_not_projected (d : Data) (sa : list scale_attr_t) (l : list stage)
    (cs : list call) :
  Forall2 (stage_call d sa) l cs -> Forall (fun c => kind_of c <> KProject) cs.
Proof.
  induction 1 as [|s c l cs Hc _ IH]; constructor; [|done].
  rewrite (stage_call_kind d sa s c Hc). by destruct s.
Qed.

(** Every way a call of [forward] can end.  It returns after all its
    library calls returned.  It raises because the assembly raised, before
    any call; or because a library call raised, which then is the last
    call; or, every call having returned, because a transformed batch lacks
    an attribute, because a block's scale level has no attributes, because
    a concatenation failed, or because the batch has no [frame]. *)
Lemma forward_outcome (d : Data) (w : world) :
  let log := new_calls w (forward d w).2 in
  let ts := scale_transforms (self w) in
  match (forward d w).1 with
  | Ok out =>
      Forall returned log /\
      exists sa, scale_attrs (self w) d = Ok sa /\
        forall j b lvl, spec_pipeline !! j = Some (Convolve b lvl) -> is_Some (sa !! lvl)
  | Raise e =>
      (feature_assembly (self w) d = Raise e /\ log = []) \/
      (exists done_ c, log = done_ ++ [c] /\ Forall returned done_ /\ call_exn c = Some e) \/
      (Forall returned log /\
       log = transform_call d <$> ts /\
       exists ds, mapM (fun s => apply_composed s d) ts = Ok ds /\
                  mapM attr_triple ds = Raise e) \/
      (Forall returned log /\
       exists sa k,
         scale_attrs (self w) d = Ok sa /\
         kind_of <$> log =
           replicate (length ts) KTransform ++ take k (stage_kind <$> spec_pipeline) /\
         (forall j b lvl, j < k -> spec_pipeline !! j = Some (Convolve b lvl) ->
                          is_Some (sa !! lvl)) /\
         ((exists b lvl, spec_pipeline !! k = Some (Convolve b lvl) /\
                         sa !! lvl = None /\ e = IndexError) \/
          (exists n p x u copy,
             k = S n /\ spec_pipeline !! n = Some (UnpoolUp p) /\
             last log = Some (Pooled p x d (Ok u)) /\ cat1 u copy = Raise e) \/
          (k = length spec_pipeline /\ frame d = None /\
           e = AttributeError "frame")))
  end.
Proof.
  cbn zeta. rewrite forward_unfold.
  destruct (feature_assembly (self w) d) as [x|e] eqn:Hx.
  2:{ left. split; [done|]. unfold new_calls. cbn. by rewrite drop_all. }
  cbn zeta.
  destruct (scale_attrs (self w) d) as [sa|e] eqn:Hattrs; cbn [fst snd].
  2:{ unfold new_calls. cbn [calls]. rewrite drop_app_length.
      unfold scale_attrs in Hattrs.
      destruct (mapM (fun s => apply_composed s d) (scale_transforms (self w)))
        as [ds|e'] eqn:Hds; cbn [mbind result_bind] in Hattrs.
      - right; right; left. rewrite (attempted_all _ _ _ Hds).
        split; [by eapply transforms_returned|]. split; [done|]. by exists ds.
      - injection Hattrs as ->. right; left.
        destruct (attempted_raise _ _ _ Hds) as (done_ & s & -> & Hd & Hs).
        exists (transform_call d <$> done_), (transform_call d s).
        split; [by rewrite fmap_app|]. split; [by apply Forall_fmap|].
        unfold transform_call. cbn. by rewrite Hs. }
  rewrite (scale_attrs_attempted _ _ _ Hattrs).
  assert (Forall returned (transform_call d <$> scale_transforms (self w))) as Hret.
  { unfold scale_attrs in Hattrs. apply bind_Ok in Hattrs as (ds & Hds & _).
    by eapply transforms_returned. }
  match goal with |- context [spec_stages d sa spec_pipeline ?st ?w1] =>
    destruct (spec_stages_outcome d sa spec_pipeline st w1 eq_refl)
      as (cs & Hcs & HF & Hout);
    destruct (spec_stages d sa spec_pipeline st w1) as [[st'|e] w2] end;
    cbn [fst snd calls] in *.
  - destruct Hout as [Hcsret Hlen].
    rewrite Hlen, take_ge in HF by done.
    pose proof (fun j b lvl => stage_calls_levels d sa _ cs j b lvl HF) as Hlev.
    apply stage_calls_kinds in HF.
    destruct (frame d) as [fr|] eqn:Hfr; cbn [getattr or_raise].
    + cbn [fst snd]. unfold new_calls. cbn [calls].
      rewrite Hcs, <- !app_assoc, drop_app_length.
      destruct (so2_feature_to_ambient_vector st'.1 fr) as [y|e] eqn:Hy; cbn.
      * split; [|by exists sa].
        apply Forall_app. split; [done|]. apply Forall_app. split; [done|].
        by repeat constructor.
      * right; left. eexists (_ ++ cs), _. rewrite <- app_assoc. split; [done|].
        split; [by apply Forall_app|]. done.
    + cbn [fst snd]. unfold new_calls. rewrite Hcs, <- !app_assoc, drop_app_length.
      right; right; right. split; [by apply Forall_app|].
      exists sa, (length spec_pipeline). split; [done|].
      split.
      { rewrite fmap_app, transform_calls_kinds, HF.
        by rewrite take_ge by (by rewrite length_fmap). }
      split; [intros j b lvl _; apply Hlev|].
      right; right. done.
  - unfold new_calls. rewrite Hcs, <- !app_assoc, drop_app_length.
    assert (kind_of <$> (transform_call d <$> scale_transforms (self w)) ++ cs =
            replicate (length (scale_transforms (self w))) KTransform ++
            take (length cs) (stage_kind <$> spec_pipeline)) as Hkinds.
    { rewrite fmap_app, transform_calls_kinds. f_equal.
      apply stage_calls_kinds in HF. by rewrite HF, fmap_take. }
    assert (forall j b lvl, j < length cs -> spec_pipeline !! j = Some (Convolve b lvl) ->
              is_Some (sa !! lvl)) as Hlev.
    { intros j b lvl Hj Hl. apply (stage_calls_levels d sa _ cs j b lvl HF).
      by rewrite lookup_take_lt. }
    destruct Hout as [(done_ & c & -> & Hd & He)|[(Hcsret & b & lvl & Hl & Hs & ->)|
                       (Hcsret & n & p & x' & u & copy & Hlen & Hl & Hlast & Hcat)]].
    + right; left. eexists (_ ++ done_), c. rewrite <- app_assoc. split; [done|].
      split; [by apply Forall_app|done].
    + right; right; right. split; [by apply Forall_app|].
      exists sa, (length cs). do 3 (split; [done|]). left. by exists b, lvl.
    + right; right; right. split; [by apply Forall_app|].
      exists sa, (length cs). do 3 (split; [done|]). right; left.
      exists n, p, x', u, copy. do 2 (split; [done|]). split; [|done].
      rewrite last_app, Hlast. done.
Qed.

(** The log of a run: written out when the run returns, a prefix of the
    pipeline's calls when it raises. *)
Lemma forward_log (d : Data) (w : world) :
  let log := new_calls w (forward d w).2 in
  let ts := scale_transforms (self w) in
  match (forward d w).1 with
  | Ok out =>
      exists x0 sa fr y a0 a1 a2
             x1 copy0 p1 x3 copy1 p2 x5 x6 u2 z2 x8 x9 x10 x11 u1 z1 x13 x14 x15 x16,
        feature_assembly (self w) d = Ok x0 /\ scale_attrs (self w) d = Ok sa /\
        sa !! 0 = Some a0 /\ sa !! 1 = Some a1 /\ sa !! 2 = Some a2 /\
        cat1 u2 copy1 = Ok z2 /\ cat1 u1 copy0 = Ok z1 /\
        frame d = Some fr /\
        log = (transform_call d <$> ts) ++
              [ Convolved conv01 x0 a0 (Ok x1); Convolved conv02 x1 a0 (Ok copy0);
                Pooled pool1 copy0 d (Ok p1);
                Convolved conv11 p1 a1 (Ok x3); Convolved conv12 x3 a1 (Ok copy1);
                Pooled pool2 copy1 d (Ok p2);
                Convolved conv21 p2 a2 (Ok x5); Convolved conv22 x5 a2 (Ok x6);
                Pooled unpool2 x6 d (Ok u2);
                Convolved conv13 z2 a1 (Ok x8); Convolved conv14 x8 a1 (Ok x9);
                Convolved conv15 x9 a1 (Ok x10); Convolved conv16 x10 a1 (Ok x11);
                Pooled unpool1 x11 d (Ok u1);
                Convolved conv03 z1 a0 (Ok x13); Convolved conv04 x13 a0 (Ok x14);
                Convolved conv05 x14 a0 (Ok x15); Convolved conv06 x15 a0 (Ok x16);
                Projected x16 fr (Ok y) ] /\
        out = squeeze y
  | Raise _ => kind_of <$> log `prefix_of` pipeline_kinds (length ts)
  end.
Proof.
  cbn zeta.
  rewrite forward_unfold. unfold pipeline_kinds.
  destruct (feature_assembly (self w) d) as [x|e] eqn:Hx.
  2:{ cbn. unfold new_calls. rewrite drop_all. apply prefix_nil. }
  cbn zeta.
  destruct (scale_attrs (self w) d) as [sa|e] eqn:Hsa.
  2:{ cbn [fst snd]. unfold new_calls; cbn [calls]; rewrite drop_app_length.
      rewrite transform_calls_kinds. apply replicate_prefix, attempted_length. }
  rewrite (scale_attrs_attempted _ _ _ Hsa).
  match goal with |- context [spec_stages d sa spec_pipeline ?st ?w1] =>
    destruct (spec_stages_run d sa spec_pipeline st w1) as (_ & cs & Hcs & HF & Hlen);
    destruct (spec_stages d sa spec_pipeline st w1) as [[st'|e] w2] eqn:Hst end;
    cbn [fst snd calls] in *.
  - specialize (Hlen st' eq_refl).
    rewrite Hlen, firstn_all in HF.
    apply stage_calls_kinds in HF.
    apply spec_stages_log in Hst as (cs' & Hcs' & Hlog). cbn [calls] in Hcs'.
    assert (cs' = cs) as -> by (rewrite Hcs in Hcs'; by apply app_inv_head in Hcs').
    unfold getattr, or_raise.
    destruct (frame d) as [fr|] eqn:Hfr; cbn [fst snd].
    + destruct (so2_feature_to_ambient_vector st'.1 fr) as [y|e] eqn:Hy; cbn [fmap result_fmap].
      * apply unet_log in Hlog
          as (a0 & a1 & a2 & x1 & copy0 & p1 & x3 & copy1 & p2 & x5 & x6 & u2 & z2 & x8 &
              x9 & x10 & x11 & u1 & z1 & x13 & x14 & x15 & x16 &
              Ha0 & Ha1 & Ha2 & Hz2 & Hz1 & -> & ->).
        exists x, sa, fr, y, a0, a1, a2,
          x1, copy0, p1, x3, copy1, p2, x5, x6, u2, z2, x8, x9, x10, x11, u1, z1,
          x13, x14, x15, x16.
        do 8 (split; [done|]). split; [|done].
        unfold new_calls; cbn [calls]. rewrite Hcs, <- !app_assoc, drop_app_length.
        done.
      * unfold new_calls; cbn [calls]. rewrite Hcs, <- !app_assoc, drop_app_length.
        by rewrite !fmap_app, transform_calls_kinds, HF.
    + unfold new_calls; rewrite Hcs, <- !app_assoc, drop_app_length.
      rewrite !fmap_app, transform_calls_kinds, HF.
      apply prefix_app, prefix_app_r. done.
  - unfold new_calls; rewrite Hcs, <- !app_assoc, drop_app_length.
    rewrite !fmap_app, transform_calls_kinds.
    apply prefix_app. rewrite (stage_calls_kinds _ _ _ _ HF).
    rewrite fmap_take. etrans; [apply prefix_take|]. by apply prefix_app_r.
Qed.

(** C4.  [forward] is the linear pipeline of the specification: assembly
    and scale transforms, two encoder blocks, twice a pooling step that
    keeps a skip copy followed by two blocks, twice an unpooling step
    followed by the concatenation with the matching skip copy and four
    blocks, then the projection.  A run that returns has made exactly the
    library calls below, in this order: [copy0] and [copy1] are what [pool1]
    and [pool2] are given, and [conv03] and [conv13], right behind [unpool1]
    and [unpool2], are given them back, concatenated to what the unpooling
    returned.  A run goes through all of the pipeline unless something
    fails: when it raises, its calls are those of the pipeline up to the
    failure, and the failure is one of these: the assembly raised, before
    any call; a library call raised, which then is the last call; or, every
    call so far having returned, a transformed batch lacks an attribute, the
    next block's scale level has no attributes, the concatenation behind
    the unpooling step just made failed, or, all stages done, the batch has
    no [frame].  The skip copies live in the run only: the state it leaves
    is the module and the call log, and what a run returns depends on the
    batch and the module alone. *)
Theorem forward_linear_pipeline (d : Data) (w : world) :
  forward d w = spec_forward d w /\
  (forward d {| self := self w; calls := [] |}).1 = (forward d w).1 /\
  let log := new_calls w (forward d w).2 in
  let ts := scale_transforms (self w) in
  match (forward d w).1 with
  | Ok out =>
      exists x0 sa fr y a0 a1 a2
             x1 copy0 p1 x3 copy1 p2 x5 x6 u2 z2 x8 x9 x10 x11 u1 z1 x13 x14 x15 x16,
        feature_assembly (self w) d = Ok x0 /\ scale_attrs (self w) d = Ok sa /\
        sa !! 0 = Some a0 /\ sa !! 1 = Some a1 /\ sa !! 2 = Some a2 /\
        cat1 u2 copy1 = Ok z2 /\ cat1 u1 copy0 = Ok z1 /\
        frame d = Some fr /\
        log = (transform_call d <$> ts) ++
              [ Convolved conv01 x0 a0 (Ok x1); Convolved conv02 x1 a0 (Ok copy0);
                Pooled pool1 copy0 d (Ok p1);
                Convolved conv11 p1 a1 (Ok x3); Convolved conv12 x3 a1 (Ok copy1);
                Pooled pool2 copy1 d (Ok p2);
                Convolved conv21 p2 a2 (Ok x5); Convolved conv22 x5 a2 (Ok x6);
                Pooled unpool2 x6 d (Ok u2);
                Convolved conv13 z2 a1 (Ok x8); Convolved conv14 x8 a1 (Ok x9);
                Convolved conv15 x9 a1 (Ok x10); Convolved conv16 x10 a1 (Ok x11);
                Pooled unpool1 x11 d (Ok u1);
                Convolved conv03 z1 a0 (Ok x13); Convolved conv04 x13 a0 (Ok x14);
                Convolved conv05 x14 a0 (Ok x15); Convolved conv06 x15 a0 (Ok x16);
                Projected x16 fr (Ok y) ] /\
        out = squeeze y
  | Raise e =>
      kind_of <$> log `prefix_of` pipeline_kinds (length ts) /\
      ((feature_assembly (self w) d = Raise e /\ log = []) \/
       (exists done_ c,
          log = done_ ++ [c] /\ Forall returned done_ /\ call_exn c = Some e) \/
       (Forall returned log /\
        log = transform_call d <$> ts /\
        exists ds, mapM (fun s => apply_composed s d) ts = Ok ds /\
                   mapM attr_triple ds = Raise e) \/
       (Forall returned log /\
        exists sa k,
          scale_attrs (self w) d = Ok sa /\
          kind_of <$> log =
            replicate (length ts) KTransform ++ take k (stage_kind <$> spec_pipeline) /\
          (forall j b lvl, j < k -> spec_pipeline !! j = Some (Convolve b lvl) ->
                           is_Some (sa !! lvl)) /\
          ((exists b lvl, spec_pipeline !! k = Some (Convolve b lvl) /\
                          sa !! lvl = None /\ e = IndexError) \/
           (exists n p x u copy,
              k = S n /\ spec_pipeline !! n = Some (UnpoolUp p) /\
              last log = Some (Pooled p x d (Ok u)) /\ cat1 u copy = Raise e) \/
           (k = length spec_pipeline /\ frame d = None /\
            e = AttributeError "frame"))))
  end.
Proof.
  split; [apply forward_spec_forward|].
  split; [by apply forward_log_irrelevant|].
  pose proof (forward_log d w) as Hlog. pose proof (forward_outcome d w) as Hout.
  cbn zeta in *. destruct (forward d w).1 as [out|e]; [done|]. by split.
Qed.

(** * Scale levels *)

Lemma unet_levels (b : block_name) (lvl : nat) :
  Convolve b lvl ∈ spec_pipeline -> lvl = block_scale b.
Proof.
  assert (Forall (fun s => match s with
                           | Convolve b lvl => lvl = block_scale b
                           | _ => True
                           end) spec_pipeline) as Hall by (unfold spec_pipeline; repeat constructor).
  intros Hin. by apply (proj1 (Forall_forall _ _) Hall _ Hin).
Qed.




Lemma prepare_input_Ok (d : Data) (w : world) (x : tensor) (sa : list scale_attr_t) :
  (prepare_input d w).1 = Ok (x, sa) <->
  feature_assembly (self w) d = Ok x /\ scale_attrs (self w) d = Ok sa.
Proof.
  rewrite prepare_input_eq.
  destruct (feature_assembly (self w) d) as [x'|e]; cbn.
  2:{ split; [done|]. by intros [? _]. }
  destruct (scale_attrs (self w) d) as [sa'|e]; cbn.
  - split; [by intros [= -> ->]|by intros [[= ->] [= ->]]].
  - split; [done|]. by intros [_ ?].
Qed.

Lemma scale_attrs_lookup (m : GEMGCN) (d : Data) (sa : list scale_attr_t)
    (i : nat) (s : composed) :
  scale_attrs m d = Ok sa -> scale_transforms m !! i = Some s ->
  exists d' a, apply_composed s d = Ok d' /\ attr_triple d' = Ok a /\ sa !! i = Some a.
Proof.
  unfold scale_attrs. intros Hsa Hs. apply bind_Ok in Hsa as (ds & Hds & Hsa).
  apply mapM_result_Forall2 in Hds. apply mapM_result_Forall2 in Hsa.
  destruct (Forall2_lookup_l _ _ _ _ _ Hds Hs) as (d' & Hd' & Hap).
  destruct (Forall2_lookup_l _ _ _ _ _ Hsa Hd') as (a & Ha & Hat).
  by exists d', a.
Qed.



(** * The module and the scale transforms across calls *)

Lemma feature_assembly_same_params (m m' : GEMGCN) (d : Data) :
  same_params m m' -> feature_assembly m d = feature_assembly m' d.
Proof. intros (Hin & _). rewrite !feature_assembly_eq. by rewrite Hin. Qed.

Lemma scale_attrs_same_params (m m' : GEMGCN) (d : Data) :
  same_params m m' -> scale_attrs m d = scale_attrs m' d.
Proof. intros (_ & _ & Hts & _). unfold scale_attrs. by rewrite Hts. Qed.

(** A run changes nothing of the module but the buffers of its blocks. *)
Lemma forward_same_params (d : Data) (w : world) :
  same_params (self w) (self (forward d w).2).
Proof.
  rewrite forward_unfold.
  destruct (feature_assembly (self w) d) as [x|e]; [|apply same_params_refl].
  cbn zeta. destruct (scale_attrs (self w) d) as [sa|e]; [|apply same_params_refl].
  match goal with |- context [spec_stages d sa spec_pipeline ?st ?w1] =>
    destruct (spec_stages_run d sa spec_pipeline st w1) as (Hp & _);
    destruct (spec_stages d sa spec_pipeline st w1) as [[st'|e] w2] end;
    cbn [fst snd self] in *; [|done].
  by destruct (getattr "frame" (frame d)).
Qed.

(** A run whose input preparation returns has applied every scale
    transform of the module to the batch, before anything else. *)
Lemma forward_applies_transforms (d : Data) (w : world) (x : tensor)
    (sa : list scale_attr_t) :
  (prepare_input d w).1 = Ok (x, sa) ->
  (transform_call d <$> scale_transforms (self w))
    `prefix_of` new_calls w (forward d w).2.
Proof.
  intros Hprep. apply prepare_input_Ok in Hprep as [Hx Hsa].
  rewrite forward_unfold, Hx. cbn zeta. rewrite Hsa.
  rewrite (scale_attrs_attempted _ _ _ Hsa).
  match goal with |- context [spec_stages d sa spec_pipeline ?st ?w1] =>
    destruct (spec_stages_run d sa spec_pipeline st w1) as (_ & cs & Hcs & _);
    destruct (spec_stages d sa spec_pipeline st w1) as [[st'|e] w2] end;
    cbn [fst snd calls] in *.
  - destruct (getattr "frame" (frame d)); cbn [fst snd];
      unfold new_calls; cbn [calls]; rewrite Hcs, <- ?app_assoc, drop_app_length;
      by apply prefix_app_r.
  - unfold new_calls. rewrite Hcs, <- ?app_assoc, drop_app_length. by apply prefix_app_r.
Qed.

(** C6.  A call of [forward] leaves the module as it was but for the
    buffers of its blocks: declaration, scale transforms, pooling layers,
    and the configuration and weights of every block are unchanged.  It
    keeps nothing of the precomputation: when the input preparation
    returns, the run has applied every scale transform to the batch, and so
    has the next run on the state this one leaves, which prepares the same
    input by the same calls.  When the preparation raises, the run has
    called nothing but scale transforms. *)
Theorem forward_recomputes_scales (d : Data) (w : world) :
  let w1 := (forward d w).2 in
  let w2 := (forward d w1).2 in
  same_params (self w) (self w1) /\
  scale_transforms (self w1) = scale_transforms (self w) /\
  match (prepare_input d w).1 with
  | Ok (x, sa) =>
      (transform_call d <$> scale_transforms (self w)) `prefix_of` new_calls w w1 /\
      (prepare_input d w1).1 = Ok (x, sa) /\
      (transform_call d <$> scale_transforms (self w)) `prefix_of` new_calls w1 w2
  | Raise _ => Forall (fun c => kind_of c = KTransform) (new_calls w w1)
  end.
Proof.
  cbn zeta. pose proof (forward_same_params d w) as Hsame.
  split; [done|]. split; [by destruct Hsame as (_ & _ & <- & _)|].
  destruct (prepare_input d w).1 as [[x sa]|e] eqn:Hprep.
  2:{ rewrite prepare_input_eq in Hprep. rewrite forward_unfold.
      destruct (feature_assembly (self w) d) as [x|e'].
      - cbn zeta. destruct (scale_attrs (self w) d) as [sa|e'']; [done|].
        cbn [fst snd]. unfold new_calls. cbn [calls]. rewrite drop_app_length.
        apply Forall_fmap, Forall_forall. by intros s _.
      - cbn [snd]. unfold new_calls. rewrite drop_all. constructor. }
  assert ((prepare_input d (forward d w).2).1 = Ok (x, sa)) as Hprep'.
  { apply prepare_input_Ok. apply prepare_input_Ok in Hprep as [Hx Hsa].
    by rewrite <- (feature_assembly_same_params _ _ d Hsame),
               <- (scale_attrs_same_params _ _ d Hsame). }
  split; [by eapply forward_applies_transforms|]. split; [done|].
  destruct Hsame as (_ & _ & -> & _). by eapply forward_applies_transforms.
Qed.

(** * The channel count of the assembled tensor *)

(** C2, as the code has it.  The assembled tensor has the matrix
    features' channels plus one, and one more when the declared [in_rep[1]]
    exceeds that: its width is [in_rep[1]] exactly when [in_rep[1]] is the
    number of matrix-feature channels plus one or plus two.  Nothing in
    [prepare_input] compares the two.  [forward] hands the tensor as it is
    to [conv01], its first library call after the scale transforms, and
    ends with what that block raises if it raises.  A batch without
    [condition], when the declaration asks for the condition channel, ends
    the assembly with an attribute error. *)
Theorem assembled_channel_count (d : Data) (w : world) (f : tensor) (N C I in1 : nat) :
  matrix_features d = Some f -> shape f = [N; C; I] ->
  in_rep (self w) !! 1 = Some in1 ->
  (forall x, feature_assembly (self w) d = Ok x ->
     size x 1 = Ok (if decide (C + 1 < in1) then C + 2 else C + 1) /\
     (size x 1 = Ok in1 <-> in1 = C + 1 \/ in1 = C + 2)) /\
  (forall (x : tensor) (sa : list scale_attr_t) (a : scale_attr_t),
     (prepare_input d w).1 = Ok (x, sa) -> sa !! 0 = Some a ->
     let r := (gem_res_net_block (blocks (self w) conv01) x a.1.1 a.1.2 a.2).1 in
     exists rest,
       new_calls w (forward d w).2 =
         (transform_call d <$> scale_transforms (self w)) ++
         Convolved conv01 x a r :: rest /\
       forall e, r = Raise e -> (forward d w).1 = Raise e /\ rest = []) /\
  (forall g gs,
     geo d = Some g -> expand_to g N = Ok gs -> I <> 0 ->
     C + 1 < in1 -> condition d = None ->
     feature_assembly (self w) d = Raise (AttributeError "condition")).
Proof.
  intros Hf Hs Hin. split; [|split].
  - intros x Hx.
    apply feature_assembly_inv in Hx
      as (f' & N' & C' & I' & g & geodesics & x0 & in1' & Hf' & Hs' & Hg & Hset & Hcat &
          Hin' & Hc).
    simplify_eq. rewrite Hs in Hs'. simplify_eq.
    destruct (setitem_00_zeros _ _ _ _ Hset) as (_ & Hsg & _).
    pose proof (cat1_shape _ _ _ _ _ _ _ Hs Hsg Hcat) as Hs0.
    match goal with |- ?P /\ _ => assert P as Hw end.
    { unfold size. case_decide as Hlt.
      - destruct Hc as (c & v & cond & _ & _ & Hsetc & Hcatc).
        destruct (setitem_00_zeros _ _ _ _ Hsetc) as (_ & Hsc & _).
        rewrite (cat1_shape _ _ _ _ _ _ _ Hs0 Hsc Hcatc). cbn. f_equal. lia.
      - subst x0. by rewrite Hs0. }
    split; [done|]. rewrite Hw. case_decide; split.
    + intros [= <-]. by right.
    + intros [?|?]; f_equal; lia.
    + intros [= <-]. by left.
    + intros [?|?]; f_equal; lia.
  - intros x sa a Hprep Ha. cbn zeta.
    apply prepare_input_Ok in Hprep as [Hx Hsa].
    rewrite forward_unfold, Hx. cbn zeta. rewrite Hsa.
    rewrite (scale_attrs_attempted _ _ _ Hsa).
    unfold spec_pipeline. rewrite spec_stages_cons. cbn [spec_stage].
    rewrite bindM_eq, call_block_eq, Ha. cbn zeta. cbn [fst snd self calls].
    destruct (gem_res_net_block (blocks (self w) conv01) x a.1.1 a.1.2 a.2) as [[y|e] buf];
      cbn [fst snd mret M_ret].
    + match goal with |- context [spec_stages d sa ?l ?st ?w1] =>
        destruct (spec_stages_run d sa l st w1) as (_ & cs & Hcs & _);
        destruct (spec_stages d sa l st w1) as [[st'|e] w2] end;
        cbn [fst snd calls] in *.
      * destruct (getattr "frame" (frame d)); cbn [fst snd];
          (eexists; split; [|done]);
          unfold new_calls; cbn [calls]; rewrite Hcs, <- ?app_assoc, drop_app_length;
          cbn; reflexivity.
      * eexists; split; [|done].
        unfold new_calls; cbn [calls]. rewrite Hcs, <- ?app_assoc, drop_app_length.
        cbn; reflexivity.
    + exists []. split.
      * unfold new_calls; cbn [calls]. by rewrite <- ?app_assoc, drop_app_length.
      * by intros e' [= <-].
  - intros g gs Hg Hgs HI Hlt Hcond. rewrite feature_assembly_eq.
    rewrite Hf. cbn. rewrite Hs. cbn. rewrite Hg. cbn.
    unfold setitem_00. cbn [zeros shape elems].
    rewrite decide_False by lia. rewrite Hgs. cbn [mbind result_bind].
    erewrite cat1_rank3 by done. cbn [mbind result_bind].
    rewrite Hin. cbn. rewrite decide_True by lia. by rewrite Hcond.
Qed.

(** * The shape of the output *)

Lemma getitem_index_Ok (c : list scalar) (idx : list Z) :
  Forall (fun i => 0 <= i < Z.of_nat (length c))%Z idx ->
  exists v, getitem_index c idx = Ok v /\ length v = length idx.
Proof.
  unfold getitem_index. induction 1 as [|i idx Hi _ (v & Hv & Hlen)].
  - by exists [].
  - assert (wrap_index (length c) i = i) as Hw.
    { unfold wrap_index. destruct (Z.ltb_spec i 0); lia. }
    cbn. rewrite Hw, decide_True by done.
    destruct (lookup_lt_is_Some_2 c (Z.to_nat i)) as [y Hy]; [lia|].
    rewrite Hy. cbn. rewrite Hv. cbn. exists (y :: v). split; [done|]. cbn. lia.
Qed.

(** On a well-shaped batch the assembly returns a tensor of the declared
    width. *)
Lemma feature_assembly_well_shaped (m : GEMGCN) (d : Data) (N : nat) :
  well_shaped m d N ->
  exists x in0 in1,
    in_rep m !! 0 = Some in0 /\ in_rep m !! 1 = Some in1 /\
    feature_assembly m d = Ok x /\ shape x = [N; in1; 2 * in0 + 1].
Proof.
  intros (f & C & in0 & in1 & g & fr & Hin0 & Hin1 & Hf & Hs & Hg & Hlen & _ & _ & Hc).
  assert (exists geodesics, setitem_00 (zeros [N; 1; 2 * in0 + 1]) g = Ok geodesics /\
                            shape geodesics = [N; 1; 2 * in0 + 1]) as (geodesics & Hset & Hsg).
  { unfold setitem_00. cbn [zeros shape]. rewrite decide_False by lia.
    unfold expand_to. rewrite decide_True by done. cbn [mbind result_bind]. eauto. }
  pose proof (cat1_rank3 f geodesics N C 1 (2 * in0 + 1) Hs Hsg) as Hcat.
  cut (exists x, feature_assembly m d = Ok x /\ shape x = [N; in1; 2 * in0 + 1]).
  { intros (x & Hx & Hsx). by exists x, in0, in1. }
  rewrite feature_assembly_eq, Hf. cbn [getattr or_raise mbind result_bind].
  rewrite Hs. cbn [mbind result_bind]. rewrite Hg. cbn [getattr or_raise mbind result_bind].
  rewrite Hset. cbn [mbind result_bind]. rewrite Hcat. cbn [mbind result_bind].
  rewrite Hin1. cbn [or_raise mbind result_bind]. unfold size at 1. cbn [shape].
  change ([N; C + 1; 2 * in0 + 1] !! 1) with (Some (C + 1)).
  cbn [or_raise mbind result_bind].
  destruct Hc as [->|(-> & c & b & Hc & Hb & Hlb & Hrange)].
  - rewrite decide_False by lia. eauto.
  - rewrite decide_True by lia. rewrite Hc, Hb. cbn [getattr or_raise mbind result_bind getitem].
    destruct (getitem_index_Ok c b Hrange) as (v & Hv & Hlv). rewrite Hv.
    cbn [mbind result_bind].
    assert (exists cond, setitem_00 (zeros [N; 1; 2 * in0 + 1]) v = Ok cond /\
                         shape cond = [N; 1; 2 * in0 + 1]) as (cond & Hsetc & Hsc).
    { unfold setitem_00. cbn [zeros shape]. rewrite decide_False by lia.
      unfold expand_to. rewrite decide_True by lia. cbn [mbind result_bind]. eauto. }
    rewrite Hsetc. cbn [mbind result_bind].
    erewrite cat1_rank3 by done.
    eexists. split; [done|]. cbn. do 2 f_equal. lia.
Qed.

Lemma mapM_result_Ok {A B} (f : A -> result B) (l : list A) :
  Forall (fun a => exists b, f a = Ok b) l -> exists k, mapM f l = Ok k.
Proof.
  induction 1 as [|a l [b Hb] _ [k Hk]]; [by exists []|].
  exists (b :: k). cbn. rewrite Hb. cbn. by rewrite Hk.
Qed.

(** When the transforms do their part, [scale_attr] has an entry for
    every scale, made by that scale's transform. *)
Lemma scale_attrs_fits (m : GEMGCN) (d : Data) (nv : nat -> nat) :
  library_fits m d nv ->
  exists sa, scale_attrs m d = Ok sa /\
    length sa = length (scale_transforms m) /\
    forall lvl a, sa !! lvl = Some a ->
      exists s d', scale_transforms m !! lvl = Some s /\
        apply_composed s d = Ok d' /\ attr_triple d' = Ok a.
Proof.
  intros (HT & _).
  assert (exists sa, scale_attrs m d = Ok sa) as [sa Hsa].
  { unfold scale_attrs.
    destruct (mapM_result_Ok (fun s => apply_composed s d) (scale_transforms m)) as [ds Hds].
    { apply Forall_forall. intros s Hs. destruct (HT s Hs) as (d' & _ & Hd' & _). eauto. }
    rewrite Hds. cbn [mbind result_bind].
    apply mapM_result_Ok, Forall_forall. intros d' Hd'.
    apply mapM_result_Forall2 in Hds.
    apply list_elem_of_lookup_1 in Hd' as [i Hi].
    destruct (Forall2_lookup_r _ _ _ _ _ Hds Hi) as (s & Hs & Hap).
    destruct (HT s) as (d'' & a & Hd'' & Ha); [by eapply list_elem_of_lookup_2|].
    exists a. congruence. }
  exists sa. split; [done|]. split; [by apply (scale_attrs_length m d)|].
  intros lvl a Ha.
  destruct (lookup_lt_is_Some_2 (scale_transforms m) lvl) as [s Hs].
  { rewrite <- (scale_attrs_length _ _ _ Hsa). by eapply lookup_lt_Some. }
  destruct (scale_attrs_lookup _ _ _ _ _ Hsa Hs) as (d' & a' & Hd' & Ha' & Hlk).
  exists s, d'. split; [done|]. split; [done|]. congruence.
Qed.

Section Fits.
Variables (m : GEMGCN) (d : Data) (nv : nat -> nat) (sa : list scale_attr_t).
Hypothesis fits : library_fits m d nv.
Hypothesis attrs :
  forall lvl a, sa !! lvl = Some a ->
    exists s d', scale_transforms m !! lvl = Some s /\
      apply_composed s d = Ok d' /\ attr_triple d' = Ok a.

Lemma conv_fits (w : world) (b : block_name) (lvl : nat) (x : tensor)
    (skips : list tensor) :
  same_params m (self w) -> is_Some (sa !! lvl) ->
  shape x = [nv lvl; in_channels (cfg (blocks m b)); 2 * in_order (cfg (blocks m b)) + 1] ->
  exists y w',
    spec_stage d sa (Convolve b lvl) (x, skips) w = (Ok (y, skips), w') /\
    shape y = [nv lvl; out_channels (cfg (blocks m b));
               2 * out_order (cfg (blocks m b)) + 1] /\
    same_params m (self w').
Proof.
  intros Hsame [a Ha] Hx. destruct fits as (_ & HB & _).
  destruct (attrs lvl a Ha) as (s & d' & Hs & Hd' & Hat).
  pose proof Hsame as (_ & _ & _ & _ & Hb). destruct (Hb b) as [Hcfg _].
  destruct (HB (blocks (self w) b) lvl s d' a x Hs Hd' Hat) as (y & Hy & Hsy).
  { by rewrite <- Hcfg. }
  cbn [spec_stage]. rewrite bindM_eq, call_block_eq, Ha. cbn zeta.
  destruct (gem_res_net_block (blocks (self w) b) x a.1.1 a.1.2 a.2) as [r buf].
  cbn [fst snd] in *. subst r. cbn [mret M_ret].
  eexists y, _. split; [done|]. split; [by rewrite Hcfg|].
  cbn [self]. eapply same_params_trans; [done|]. apply same_params_set_running.
Qed.

Lemma pool_down_fits (w : world) (p : pool_name) (x : tensor) (skips : list tensor)
    (c i : nat) :
  same_params m (self w) -> unpool (pools m p) = false ->
  shape x = [nv (coarse_lvl (pools m p) - 1); c; i] ->
  exists y w',
    spec_stage d sa (PoolDown p) (x, skips) w = (Ok (y, x :: skips), w') /\
    shape y = [nv (coarse_lvl (pools m p)); c; i] /\
    same_params m (self w').
Proof.
  intros Hsame Hun Hx. destruct fits as (_ & _ & HP & _).
  pose proof Hsame as (_ & _ & _ & Hp & _).
  destruct (HP p x c i) as (y & Hy & Hsy); [by rewrite Hun|].
  rewrite Hun in Hsy.
  cbn [spec_stage]. rewrite bindM_eq, call_pool_eq. cbn zeta. rewrite <- Hp, Hy.
  cbn [mret M_ret]. by eexists y, _.
Qed.

Lemma unpool_up_fits (w : world) (p : pool_name) (x copy : tensor) (skips : list tensor)
    (c c' i : nat) :
  same_params m (self w) -> unpool (pools m p) = true ->
  shape x = [nv (coarse_lvl (pools m p)); c; i] ->
  shape copy = [nv (coarse_lvl (pools m p) - 1); c'; i] ->
  exists z w',
    spec_stage d sa (UnpoolUp p) (x, copy :: skips) w = (Ok (z, skips), w') /\
    shape z = [nv (coarse_lvl (pools m p) - 1); c + c'; i] /\
    same_params m (self w').
Proof.
  intros Hsame Hun Hx Hcopy. destruct fits as (_ & _ & HP & _).
  pose proof Hsame as (_ & _ & _ & Hp & _).
  destruct (HP p x c i) as (y & Hy & Hsy); [by rewrite Hun|].
  rewrite Hun in Hsy.
  cbn [spec_stage]. rewrite bindM_eq, call_pool_eq. cbn zeta. rewrite <- Hp, Hy.
  rewrite bindM_eq. unfold lift. erewrite cat1_rank3 by done.
  cbn [mret M_ret]. by eexists _, _.
Qed.

End Fits.

(** One stage of the pipeline, run with the library's contract. *)
Tactic Notation "conv_step" constr(Hfits) constr(Hattrs) constr(Hlen) constr(Hcfg)
    "as" ident(y) ident(Hy) :=
  rewrite spec_stages_cons;
  lazymatch goal with
  | Hsame : same_params ?m (self ?w), Hx : shape ?x = _
    |- context [spec_stage ?d ?sa (Convolve ?b ?lvl) (?x, ?skips) ?w] =>
      let w' := fresh "w" in
      let Hs := fresh "Hsame" in
      let E2 := fresh "E" in
      let E4 := fresh "E" in
      destruct (conv_fits m d _ sa Hfits Hattrs w b lvl x skips Hsame)
        as (y & w' & -> & Hy & Hs);
      [ apply lookup_lt_is_Some; lia
      | destruct (Hcfg b) as (-> & _ & -> & _); exact Hx
      | destruct (Hcfg b) as (_ & E2 & _ & E4); cbn zeta in E2, E4;
        rewrite E2, E4 in Hy; clear E2 E4 Hsame; try clear Hx ]
  end.

Tactic Notation "pool_step" constr(Hfits) constr(Hpools) "as" ident(y) ident(Hy) :=
  rewrite spec_stages_cons;
  lazymatch goal with
  | Hsame : same_params ?m (self ?w), Hx : shape ?x = [_; ?c; ?i]
    |- context [spec_stage ?d ?sa (PoolDown ?p) (?x, ?skips) ?w] =>
      let w' := fresh "w" in
      let Hs := fresh "Hsame" in
      destruct (pool_down_fits m d _ sa Hfits w p x skips c i Hsame)
        as (y & w' & -> & Hy & Hs);
      [ by rewrite (Hpools p)
      | rewrite (Hpools p); exact Hx
      | rewrite (Hpools p) in Hy; cbn [coarse_lvl] in Hy; clear Hsame ]
  end.

Tactic Notation "unpool_step" constr(Hfits) constr(Hpools) constr(Hcopy)
    "as" ident(y) ident(Hy) :=
  rewrite spec_stages_cons;
  lazymatch type of Hcopy with
  | shape ?copy = [_; ?c'; _] =>
    lazymatch goal with
    | Hsame : same_params ?m (self ?w), Hx : shape ?x = [_; ?c; ?i]
      |- context [spec_stage ?d ?sa (UnpoolUp ?p) (?x, copy :: ?skips) ?w] =>
        let w' := fresh "w" in
        let Hs := fresh "Hsame" in
        destruct (unpool_up_fits m d _ sa Hfits w p x copy skips c c' i Hsame)
          as (y & w' & -> & Hy & Hs);
        [ by rewrite (Hpools p)
        | rewrite (Hpools p); exact Hx
        | rewrite (Hpools p); exact Hcopy
        | rewrite (Hpools p) in Hy; cbn [coarse_lvl Nat.sub] in Hy; clear Hsame Hx ]
    end
  end.

Lemma forward_shape (radii : list radius) (in_rep_ out_rep_ : list nat)
    (max_order n_rings_ : option nat) (fresh : block_name -> weights * buffers)
    (m : GEMGCN) (d : Data) (w : world) (nv : nat -> nat) (N out1 : nat) :
  __init__ radii in_rep_ out_rep_ max_order n_rings_ fresh = Ok m ->
  same_params m (self w) ->
  3 <= length radii ->
  out_rep_ !! 0 = Some 1 -> out_rep_ !! 1 = Some out1 ->
  well_shaped m d N -> library_fits m d nv -> nv 0 = N ->
  exists x fr y,
    so2_feature_to_ambient_vector x fr = Ok y /\ shape y = [N; out1; 3] /\
    (forward d w).1 = Ok (squeeze y) /\
    last (new_calls w (forward d w).2) = Some (Projected x fr (Ok y)).
Proof.
  intros Hm Hsame Hradii Hout0 Hout1 Hwell Hfits Hnv.
  pose proof (init_scale_transforms _ _ _ _ _ _ _ Hm) as Hts.
  destruct (feature_assembly_well_shaped m d N Hwell)
    as (x0 & in0 & in1 & Hin0 & Hin1 & Hx0 & Hs0).
  destruct (scale_attrs_fits m d nv Hfits) as (sa & Hsa & Hlen & Hattrs).
  rewrite Hts, length_imap in Hlen. clear Hts.
  destruct Hwell as (_ & _ & _ & _ & _ & fr & _ & _ & _ & _ & _ & _ & Hfr & Hsfr & _).
  assert (forall w1, same_params m (self w1) ->
            exists y w2, spec_stages d sa spec_pipeline (x0, []) w1 = (Ok (y, []), w2) /\
                         shape y = [nv 0; out1; 3]) as Hrun.
  { destruct (init_inv _ _ _ _ _ _ _ Hm)
      as (in1' & in0' & out1' & out0' & Hi1 & Hi0 & Ho1 & Ho0 & Hin & _ & Hcfg & Hpools).
    rewrite Hin in Hin0, Hin1. simplify_eq.
    clear Hsame Hx0 Hsa Hm.
    intros w1 Hsame. unfold spec_pipeline.
    conv_step Hfits Hattrs Hlen Hcfg as x1 H1.
    conv_step Hfits Hattrs Hlen Hcfg as copy0 Hcopy0.
    pose proof Hcopy0 as H2.
    pool_step Hfits Hpools as x2 H3. clear H2.
    conv_step Hfits Hattrs Hlen Hcfg as x3 H4.
    conv_step Hfits Hattrs Hlen Hcfg as copy1 Hcopy1.
    pose proof Hcopy1 as H5.
    pool_step Hfits Hpools as x5 H6. clear H5.
    conv_step Hfits Hattrs Hlen Hcfg as x6 H7.
    conv_step Hfits Hattrs Hlen Hcfg as x7 H8.
    unpool_step Hfits Hpools Hcopy1 as x8 H9. clear Hcopy1.
    conv_step Hfits Hattrs Hlen Hcfg as x9 H10.
    conv_step Hfits Hattrs Hlen Hcfg as x10 H11.
    conv_step Hfits Hattrs Hlen Hcfg as x11 H12.
    conv_step Hfits Hattrs Hlen Hcfg as x12 H13.
    unpool_step Hfits Hpools Hcopy0 as x13 H14. clear Hcopy0.
    conv_step Hfits Hattrs Hlen Hcfg as x14 H15.
    conv_step Hfits Hattrs Hlen Hcfg as x15 H16.
    conv_step Hfits Hattrs Hlen Hcfg as x16 H17.
    conv_step Hfits Hattrs Hlen Hcfg as x17 H18.
    cbn [spec_stages mret M_ret]. by eexists _, _. }
  rewrite (feature_assembly_same_params _ _ d Hsame) in Hx0.
  rewrite (scale_attrs_same_params _ _ d Hsame) in Hsa.
  rewrite forward_unfold, Hx0. cbn zeta. rewrite Hsa.
  match goal with |- context [spec_stages d sa spec_pipeline (x0, []) ?w1] =>
    destruct (spec_stages_run d sa spec_pipeline (x0, []) w1) as (_ & cs & Hcs & _);
    destruct (Hrun w1 Hsame) as (y & w2 & Hst & Hsy) end.
  rewrite Hst in *. cbn [fst snd calls] in *. rewrite Hfr. cbn [getattr or_raise].
  destruct Hfits as (_ & _ & _ & HS).
  rewrite <- Hnv in Hsfr.
  destruct (HS y fr out1 Hfr Hsfr Hsy) as (z & Hz & Hsz).
  exists y, fr, z. rewrite Hz. split; [done|]. split; [by rewrite <- Hnv|].
  split; [done|].
  unfold new_calls. cbn [snd calls]. rewrite Hcs, <- !app_assoc, drop_app_length.
  rewrite !app_assoc. apply last_snoc.
Qed.

(** C1, as the code has it.  On a batch of [N] vertices with well-shaped
    attributes, with at least three scales, an output representation of
    order one and a library that does its part, [forward] returns: the
    projection, its last library call, yields a tensor of shape
    [(N, out_rep[1], 3)], and the result is that tensor squeezed.  Its
    shape is [(N, 3)] when there is one output channel and the batch has
    more or fewer than one vertex. *)
Theorem forward_output_shape (radii : list radius) (in_rep_ out_rep_ : list nat)
    (max_order n_rings_ : option nat) (fresh : block_name -> weights * buffers)
    (m : GEMGCN) (d : Data) (w : world) (nv : nat -> nat) (N out1 : nat) :
  __init__ radii in_rep_ out_rep_ max_order n_rings_ fresh = Ok m ->
  same_params m (self w) ->
  3 <= length radii ->
  out_rep_ !! 0 = Some 1 -> out_rep_ !! 1 = Some out1 ->
  well_shaped m d N -> library_fits m d nv -> nv 0 = N ->
  exists x fr y out,
    last (new_calls w (forward d w).2) = Some (Projected x fr (Ok y)) /\
    shape y = [N; out1; 3] /\
    (forward d w).1 = Ok out /\ out = squeeze y /\
    shape out = filter (fun k => k <> 1) [N; out1; 3] /\
    (N <> 1 -> out1 = 1 -> shape out = [N; 3]).
Proof.
  intros Hm Hsame Hradii Hout0 Hout1 Hwell Hfits Hnv.
  destruct (forward_shape _ _ _ _ _ _ _ _ _ _ _ _ Hm Hsame Hradii Hout0 Hout1 Hwell Hfits Hnv)
    as (x & fr & y & _ & Hsy & Hout & Hlast).
  exists x, fr, y, (squeeze y). do 4 (split; [done|]).
  unfold squeeze. cbn [shape]. rewrite Hsy. split; [done|].
  intros HN ->. cbn. repeat case_decide; congruence.
Qed.

(** C9.  On a batch of exactly one vertex with well-shaped attributes,
    with at least three scales, an output representation of order one and a
    library that does its part, [forward] returns, and the squeeze has
    dropped the vertex dimension too: the output never has the shape
    [(1, 3)], and with one output channel its shape is [(3,)]. *)
Theorem forward_single_vertex (radii : list radius) (in_rep_ out_rep_ : list nat)
    (max_order n_rings_ : option nat) (fresh : block_name -> weights * buffers)
    (m : GEMGCN) (d : Data) (w : world) (nv : nat -> nat) (out1 : nat) :
  __init__ radii in_rep_ out_rep_ max_order n_rings_ fresh = Ok m ->
  same_params m (self w) ->
  3 <= length radii ->
  out_rep_ !! 0 = Some 1 -> out_rep_ !! 1 = Some out1 ->
  well_shaped m d 1 -> library_fits m d nv -> nv 0 = 1 ->
  exists out,
    (forward d w).1 = Ok out /\
    shape out <> [1; 3] /\
    (out1 = 1 -> shape out = [3]).
Proof.
  intros Hm Hsame Hradii Hout0 Hout1 Hwell Hfits Hnv.
  destruct (forward_shape _ _ _ _ _ _ _ _ _ _ _ _ Hm Hsame Hradii Hout0 Hout1 Hwell Hfits Hnv)
    as (x & fr & y & _ & Hsy & Hout & _).
  exists (squeeze y). split; [done|].
  unfold squeeze. cbn [shape]. rewrite Hsy. split.
  - cbn. repeat case_decide; congruence.
  - intros ->. cbn. repeat case_decide; congruence.
Qed.

End NetworkFacts.

(** * Failures and edge cases *)

Section Outcomes.
Context {T : GemTypes} {L : GemCnn}.

(** ** The tensor operations at their edges *)

Lemma expand_to_broadcasts (v : list scalar) (n : nat) :
  if decide (broadcasts (length v) n)
  then exists vs, expand_to v n = Ok vs
  else expand_to v n = Raise ShapeError.
Proof.
  unfold expand_to, broadcasts. case_decide as Hb.
  - case_decide as Hl; [by eexists|].
    destruct Hb as [?|Hb]; [done|]. destruct v as [|a [|??]]; try done. by eexists.
  - rewrite decide_False by tauto.
    destruct v as [|a [|??]]; try done. cbn in Hb. tauto.
Qed.

Lemma getitem_index_valid (c : list scalar) (idx : list Z) :
  if decide (Forall (valid_index (length c)) idx)
  then exists v, getitem_index c idx = Ok v /\ length v = length idx
  else getitem_index c idx = Raise IndexError.
Proof.
  unfold getitem_index. induction idx as [|z idx IH].
  - rewrite decide_True by constructor. by exists [].
  - assert (valid_index (length c) z <->
            (0 <= wrap_index (length c) z < Z.of_nat (length c))%Z) as Hz.
    { unfold valid_index, wrap_index. destruct (Z.ltb_spec z 0); lia. }
    cbn [mapM]. destruct (decide (Forall (valid_index (length c)) (z :: idx))) as [Hall|Hall].
    + apply Forall_cons in Hall as [Hv Hall]. rewrite decide_True in IH by done.
      destruct IH as (v & -> & Hlen).
      rewrite decide_True by (by apply Hz).
      destruct (lookup_lt_is_Some_2 c (Z.to_nat (wrap_index (length c) z))) as [y ->].
      { apply Hz in Hv. lia. }
      cbn. exists (y :: v). split; [done|]. cbn. lia.
    + match goal with |- context [decide ?P] => destruct (decide P) as [Hj|Hj] end.
      * destruct (lookup_lt_is_Some_2 c (Z.to_nat (wrap_index (length c) z))) as [y ->];
          [lia|].
        cbn. rewrite decide_False in IH.
        2:{ intros Hall'. apply Hall. constructor; [by apply Hz|done]. }
        by rewrite IH.
      * done.
Qed.

Lemma setitem_00_zeros_outcome (n i : nat) (v : list scalar) :
  if decide (i = 0) then setitem_00 (zeros [n; 1; i]) v = Raise IndexError
  else if decide (broadcasts (length v) n)
       then exists t, setitem_00 (zeros [n; 1; i]) v = Ok t /\ shape t = [n; 1; i]
       else setitem_00 (zeros [n; 1; i]) v = Raise ShapeError.
Proof.
  unfold setitem_00. cbn [zeros shape elems].
  case_decide as Hi.
  - rewrite decide_True by (by right). done.
  - rewrite (decide_False (P := 1 = 0 \/ i = 0)) by lia.
    pose proof (expand_to_broadcasts v n) as Hv. case_decide.
    + destruct Hv as [vs ->]. cbn. by eexists.
    + by rewrite Hv.
Qed.

(** X1.  Which batches the feature assembly accepts, and the exception it
    raises for every other one; the checks come in the order of the
    statements of [prepare_input].  A batch without [batch] is not refused:
    [data.batch] reads [None], and the condition is assigned as it is. *)
Theorem feature_assembly_outcome (m : GEMGCN) (d : Data) :
  match matrix_features d with
  | None => feature_assembly m d = Raise (AttributeError "matrix_features")
  | Some f =>
      match shape f with
      | [N; C; R] =>
          match geo d with
          | None => feature_assembly m d = Raise (AttributeError "geo")
          | Some g =>
              if decide (R = 0) then feature_assembly m d = Raise IndexError
              else if decide (broadcasts (length g) N) then
                match in_rep m !! 1 with
                | None => feature_assembly m d = Raise IndexError
                | Some in1 =>
                    if decide (C + 1 < in1) then
                      match condition d, batch d with
                      | None, _ =>
                          feature_assembly m d = Raise (AttributeError "condition")
                      | Some c, Some b =>
                          if decide (Forall (valid_index (length c)) b) then
                            if decide (broadcasts (length b) N)
                            then exists x, feature_assembly m d = Ok x /\
                                           shape x = [N; C + 2; R]
                            else feature_assembly m d = Raise ShapeError
                          else feature_assembly m d = Raise IndexError
                      | Some c, None =>
                          if decide (broadcasts (length c) N)
                          then exists x, feature_assembly m d = Ok x /\
                                         shape x = [N; C + 2; R]
                          else feature_assembly m d = Raise ShapeError
                      end
                    else exists x, feature_assembly m d = Ok x /\
                                   shape x = [N; C + 1; R]
                end
              else feature_assembly m d = Raise ShapeError
          end
      | _ => feature_assembly m d = Raise ValueError
      end
  end.
Proof.
  rewrite (feature_assembly_eq m d).
  destruct (matrix_features d) as [f|]; [|done]. cbn [getattr or_raise mbind result_bind].
  destruct (shape f) as [|N [|C [|I [|??]]]] eqn:Es; try done.
  cbn [mbind result_bind].
  destruct (geo d) as [g|]; [|done]. cbn [getattr or_raise mbind result_bind].
  pose proof (setitem_00_zeros_outcome N I g) as Hset.
  case_decide as HI; [by rewrite Hset|].
  case_decide as Hg; [|by rewrite Hset].
  destruct Hset as (geodesics & -> & Hsg). cbn [mbind result_bind].
  rewrite (cat1_rank3 f geodesics N C 1 I) by done. cbn [mbind result_bind].
  destruct (in_rep m !! 1) as [in1|]; [|done]. cbn [or_raise mbind result_bind].
  unfold size. cbn [shape lookup list_lookup or_raise mbind result_bind].
  case_decide as Hlt; [|by eexists].
  destruct (condition d) as [c|]; [|done]. cbn [getattr or_raise mbind result_bind].
  assert (forall v, broadcasts (length v) N ->
            exists x, (condition_ ← setitem_00 (zeros [N; 1; I]) v;
                       cat1 {| shape := [N; C + 1; I];
                               elems := mjoin (zip_with app (rows f) (rows geodesics)) |}
                         condition_) = Ok x /\
                      shape x = [N; C + 2; I]) as Hyes.
  { intros v Hv. pose proof (setitem_00_zeros_outcome N I v) as Hset.
    rewrite decide_False, decide_True in Hset by done.
    destruct Hset as (cond & -> & Hsc). cbn [mbind result_bind].
    rewrite (cat1_rank3 _ cond N (C + 1) 1 I) by done.
    eexists. split; [done|]. cbn. do 2 f_equal. lia. }
  assert (forall v, ~ broadcasts (length v) N ->
            (condition_ ← setitem_00 (zeros [N; 1; I]) v;
             cat1 {| shape := [N; C + 1; I];
                     elems := mjoin (zip_with app (rows f) (rows geodesics)) |}
               condition_) = Raise ShapeError) as Hno.
  { intros v Hv. pose proof (setitem_00_zeros_outcome N I v) as Hset.
    rewrite !decide_False in Hset by done. by rewrite Hset. }
  destruct (batch d) as [b|]; cbn [getitem].
  - pose proof (getitem_index_valid c b) as Hidx.
    case_decide as Hvalid; [|by rewrite Hidx].
    destruct Hidx as (v & -> & Hlv). cbn [mbind result_bind].
    case_decide as Hb; [apply Hyes|apply Hno]; by rewrite Hlv.
  - cbn [mbind result_bind]. case_decide as Hb; [by apply Hyes|by apply Hno].
Qed.

(** X2.  Unless the module declares more input channels than the matrix
    features and the geodesics fill, the assembly reads neither
    [data.condition] nor [data.batch]: whatever they hold, missing or
    malformed, the outcome is the same. *)
Theorem feature_assembly_ignores_condition (m : GEMGCN) (d : Data)
    (c : option (list scalar)) (b : option (list Z)) :
  ~ reads_condition m d ->
  feature_assembly m (with_condition d c b) = feature_assembly m d.
Proof.
  intros Hno. rewrite !feature_assembly_eq. cbn [with_condition matrix_features geo].
  destruct (matrix_features d) as [f|] eqn:Ef; [|done].
  cbn [getattr or_raise mbind result_bind].
  destruct (shape f) as [|N [|C [|I [|??]]]] eqn:Es; try done.
  cbn [mbind result_bind].
  destruct (geo d) as [g|]; [|done]. cbn [getattr or_raise mbind result_bind].
  destruct (setitem_00 (zeros [N; 1; I]) g) as [geodesics|] eqn:Hset; [|done].
  cbn [mbind result_bind].
  destruct (setitem_00_zeros _ _ _ _ Hset) as (_ & Hsg & _).
  rewrite (cat1_rank3 f geodesics N C 1 I) by done. cbn [mbind result_bind].
  destruct (in_rep m !! 1) as [in1|] eqn:Ein; [|done]. cbn [or_raise mbind result_bind].
  unfold size. cbn [shape lookup list_lookup or_raise mbind result_bind].
  case_decide as Hlt; [|done].
  exfalso. apply Hno. by exists f, N, C, I, in1.
Qed.

(** X3.  The assembly keeps tensors well formed: from matrix features
    that hold as many elements as their shape says it builds a tensor that
    does, of the same vertex count and order, with one or two channels
    more. *)
Theorem feature_assembly_well_formed (m : GEMGCN) (d : Data) (x f : tensor) (N C I : nat) :
  feature_assembly m d = Ok x ->
  matrix_features d = Some f -> shape f = [N; C; I] -> tensor_wf f ->
  tensor_wf x /\
  exists k, (k = 1 \/ k = 2) /\ shape x = [N; C + k; I] /\
            length (elems x) = length (elems f) + k * (N * I).
Proof.
  intros Hx Hf Hs Hwf.
  destruct (feature_assembly_inv _ _ _ Hx)
    as (f' & N' & C' & I' & g & geodesics & x0' & in1 & Hf' & Hs' & _ & _ & _ & Hin & _).
  destruct (feature_assembly_channels _ _ _ _ _ _ _ _ Hx Hf Hs Hwf Hin)
    as (g' & gs & x0 & Hg & Hgs & Hs0 & Hw0 & _ & _ & Hc).
  assert (forall t k, tensor_wf t -> shape t = [N; C + k; I] ->
            length (elems t) = length (elems f) + k * (N * I)) as Hcount.
  { intros t k Ht Hst. unfold tensor_wf in *. rewrite Ht, Hwf, Hst, Hs, !numel3. lia. }
  case_decide as Hlt.
  - destruct Hc as (c & v & vs & cond & _ & _ & _ & Hsc & Hwc & _ & Hcat).
    pose proof (cat1_wf _ _ _ _ _ _ _ Hs0 Hsc Hw0 Hwc Hcat) as Hwx.
    pose proof (cat1_shape _ _ _ _ _ _ _ Hs0 Hsc Hcat) as Hsx.
    replace (C + 1 + 1) with (C + 2) in Hsx by lia.
    split; [done|]. exists 2. split; [by right|]. split; [done|]. by apply Hcount.
  - subst x0. split; [done|]. exists 1. split; [by left|]. split; [done|]. by apply Hcount.
Qed.

(** ** How a run ends *)

Lemma all_returned_Forall (cs : list call) :
  all_returned cs = true -> Forall returned cs.
Proof.
  unfold all_returned, returned. induction cs as [|c cs IH]; cbn; [constructor|].
  destruct (call_exn c) eqn:Hc; [done|]. intros Hcs. constructor; [done|by apply IH].
Qed.

(** X4.  [forward] stops at the first library call that raises, and
    raises what that call raised: in the log of a run every call but the
    last returned, and a last call that raised did so with the exception of
    the run.  A run that returns has only calls that returned. *)
Theorem forward_stops_at_first_failure (d : Data) (w : world) :
  let log := new_calls w (forward d w).2 in
  match (forward d w).1 with
  | Ok _ => Forall returned log
  | Raise e =>
      Forall returned log \/
      exists done_ c, log = done_ ++ [c] /\ Forall returned done_ /\ call_exn c = Some e
  end.
Proof.
  cbn zeta. pose proof (forward_outcome d w) as Hout. cbn zeta in Hout.
  destruct (forward d w).1 as [out|e]; [by destruct Hout|].
  destruct Hout as [[_ ->]|[?|[[? _]|[? _]]]]; [by left|by right|by left..].
Qed.

(** X5.  With fewer than three scales [forward] fails, but not at once:
    when every library call returns, it runs the stages of the levels it
    has attributes for (three stages per level: two blocks and the pooling
    step down) and raises [IndexError] at the first block of the missing
    level. *)
Theorem forward_too_few_scales (d : Data) (w : world) (x : tensor)
    (sa : list scale_attr_t) :
  (prepare_input d w).1 = Ok (x, sa) -> length sa < 3 ->
  Forall returned (new_calls w (forward d w).2) ->
  (forward d w).1 = Raise IndexError /\
  kind_of <$> new_calls w (forward d w).2 =
    replicate (length sa) KTransform ++ take (3 * length sa) (stage_kind <$> spec_pipeline).
Proof.
  intros Hprep Hshort Hret. apply prepare_input_Ok in Hprep as [Hx Hsa].
  pose proof (forward_outcome d w) as Hout. cbn zeta in Hout.
  pose proof (scale_attrs_length _ _ _ Hsa) as Hlen.
  destruct (forward d w).1 as [out|e].
  { destruct Hout as (_ & sa' & Hsa' & Hlev).
    rewrite Hsa in Hsa'. injection Hsa' as <-.
    destruct (Hlev 6 conv21 2 eq_refl) as [a Ha].
    apply lookup_lt_Some in Ha. lia. }
  destruct Hout as [[Hx' _]|[(done_ & c & Hlog & _ & Hc)|[(_ & _ & ds & Hds & Hat)|
                     (_ & sa' & k & Hsa' & Hkinds & Hlev & Hk)]]].
  - congruence.
  - rewrite Hlog in Hret. apply Forall_app in Hret as [_ Hret].
    apply Forall_cons in Hret as [Hret _]. unfold returned in Hret. congruence.
  - unfold scale_attrs in Hsa. rewrite Hds in Hsa. cbn in Hsa. congruence.
  - rewrite Hsa in Hsa'. injection Hsa' as <-.
    rewrite <- Hlen in Hkinds. rewrite Hkinds. clear Hkinds Hret Hlen Hsa.
    destruct sa as [|a0 [|a1 [|a2 sa]]]; cbn [length] in *; [| | |lia].
    + destruct k as [|k].
      2:{ destruct (Hlev 0 conv01 0) as [? ?]; [lia|done|done]. }
      destruct Hk as [(b & lvl & _ & _ & ->)|[(n & p & ? & ? & ? & ? & _)|[? _]]]; done.
    + destruct k as [|[|[|[|k]]]].
      5:{ destruct (Hlev 3 conv11 1) as [? ?]; [lia|done|done]. }
      all: destruct Hk as [(b & lvl & Hl & Hnone & ->)|[(n & p & ? & ? & ? & Hn & Hl & _)|[? _]]];
        simplify_eq/=; try done.
    + destruct k as [|[|[|[|[|[|[|k]]]]]]].
      8:{ destruct (Hlev 6 conv21 2) as [? ?]; [lia|done|done]. }
      all: destruct Hk as [(b & lvl & Hl & Hnone & ->)|[(n & p & ? & ? & ? & Hn & Hl & _)|[? _]]];
        simplify_eq/=; try done.
Qed.

(** X6.  [data.frame] is read last.  On a batch without it [forward]
    raises, and never calls the projection; but it does not raise at once:
    a run in which every library call returned and which got through all
    eighteen stages of the pipeline is the one that ends with
    [AttributeError] for [frame]. *)
Theorem forward_reads_frame_last (d : Data) (w : world) :
  frame d = None ->
  let log := new_calls w (forward d w).2 in
  raises (forward d w).1 /\
  Forall (fun c => kind_of c <> KProject) log /\
  (Forall returned log ->
   kind_of <$> log =
     replicate (length (scale_transforms (self w))) KTransform ++
     (stage_kind <$> spec_pipeline) ->
   (forward d w).1 = Raise (AttributeError "frame")).
Proof.
  intros Hfr. cbn zeta.
  assert (raises (forward d w).1 /\
          Forall (fun c => kind_of c <> KProject) (new_calls w (forward d w).2)) as [Hr Hnp].
  { rewrite forward_unfold.
    destruct (feature_assembly (self w) d) as [x|e].
    2:{ cbn. unfold new_calls. by rewrite drop_all. }
    cbn zeta.
    assert (Forall (fun c => kind_of c <> KProject)
              (transform_call d <$> attempted d (scale_transforms (self w)))) as Htr.
    { apply Forall_fmap, Forall_forall. by intros s _. }
    destruct (scale_attrs (self w) d) as [sa|e].
    2:{ cbn [fst snd]. unfold new_calls. cbn [calls]. by rewrite drop_app_length. }
    match goal with |- context [spec_stages d sa spec_pipeline ?st ?w1] =>
      destruct (spec_stages_run d sa spec_pipeline st w1) as (_ & cs & Hcs & HF & _);
      destruct (spec_stages d sa spec_pipeline st w1) as [[st'|e] w2] end;
      cbn [fst snd calls] in *.
    - rewrite Hfr. cbn [getattr or_raise fst snd]. split; [done|].
      unfold new_calls. rewrite Hcs, <- app_assoc, drop_app_length.
      apply Forall_app. split; [done|].
      by eapply stage_calls_not_projected.
    - split; [done|].
      unfold new_calls. rewrite Hcs, <- app_assoc, drop_app_length.
      apply Forall_app. split; [done|].
      by eapply stage_calls_not_projected. }
  do 2 (split; [done|]). intros Hret Hkinds.
  pose proof (forward_outcome d w) as Hout. cbn zeta in Hout.
  destruct (forward d w).1 as [out|e]; [done|].
  destruct Hout as [[_ Hlog]|[(done_ & c & Hlog & _ & Hc)|[(_ & Hlog & _)|
                     (_ & sa & k & _ & Hkinds' & _ & Hk)]]].
  - rewrite Hlog in Hkinds. apply (f_equal length) in Hkinds.
    rewrite length_app, length_fmap in Hkinds. cbn in Hkinds. lia.
  - rewrite Hlog in Hret. apply Forall_app in Hret as [_ Hret].
    apply Forall_cons in Hret as [Hret _]. unfold returned in Hret. congruence.
  - rewrite Hlog, transform_calls_kinds in Hkinds.
    apply (f_equal length) in Hkinds.
    rewrite length_app, length_replicate, length_fmap in Hkinds. cbn in Hkinds. lia.
  - rewrite Hkinds in Hkinds'. apply app_inv_head in Hkinds'.
    apply (f_equal length) in Hkinds'. rewrite length_take, length_fmap in Hkinds'.
    cbn in Hkinds'.
    destruct Hk as [(b & lvl & Hl & _)|[(n & p & ? & ? & ? & -> & Hl & _)|(_ & _ & ->)]]; [| |done].
    + apply lookup_lt_Some in Hl. cbn in Hl. lia.
    + pose proof (lookup_lt_Some _ _ _ Hl) as Hn. cbn in Hn.
      assert (n = 17) as -> by lia. done.
Qed.

(** X7.  Every scale of the module has to work out, also one no block
    uses: when some scale transform raises on the batch, or returns a batch
    without [precomp] or [connection], [forward] raises before it calls any
    block or pooling layer.  (A batch without [edge_index] reads [None]
    there, which is passed on to the blocks as it is.) *)
Theorem forward_needs_every_scale (d : Data) (w : world) (s : composed) :
  s ∈ scale_transforms (self w) -> ~ yields_attrs d s ->
  raises (forward d w).1 /\
  Forall (fun c => kind_of c = KTransform) (new_calls w (forward d w).2).
Proof.
  intros Hs Hno. rewrite forward_unfold.
  destruct (feature_assembly (self w) d) as [x|e].
  2:{ cbn. unfold new_calls. by rewrite drop_all. }
  cbn zeta. destruct (scale_attrs (self w) d) as [sa|e] eqn:Hsa.
  - exfalso. apply Hno. apply list_elem_of_lookup in Hs as [i Hi].
    destruct (scale_attrs_lookup _ _ _ _ _ Hsa Hi) as (d' & a & ? & ? & _).
    by exists d', a.
  - cbn [fst snd]. split; [done|]. unfold new_calls. cbn [calls].
    rewrite drop_app_length. apply Forall_fmap, Forall_forall. by intros s' _.
Qed.

(** ** The blocks across a run *)

Lemma calls_of_app (b : block_name) (cs cs' : list call) :
  calls_of b (cs ++ cs') = calls_of b cs ++ calls_of b cs'.
Proof. apply omap_app. Qed.

Lemma calls_of_transforms (b : block_name) (d : Data) (l : list composed) :
  calls_of b (transform_call d <$> l) = [].
Proof. induction l as [|s l IH]; [done|]. cbn. apply IH. Qed.

Lemma calls_of_convolved (b b0 : block_name) (x : tensor) (a : scale_attr_t)
    (r : result tensor) (cs : list call) :
  calls_of b (Convolved b0 x a r :: cs) =
  if decide (b0 = b) then (x, a, r) :: calls_of b cs else calls_of b cs.
Proof. unfold calls_of. cbn. by case_decide. Qed.

Lemma calls_of_pooled (b : block_name) (p : pool_name) (x : tensor) (d : Data)
    (r : result tensor) (cs : list call) :
  calls_of b (Pooled p x d r :: cs) = calls_of b cs.
Proof. done. Qed.

Lemma block_after_step (m m1 m' : GEMGCN) (b : block_name)
    (cs : list (tensor * scale_attr_t * result tensor)) :
  blocks m1 b = blocks m b -> block_after m1 m' b cs -> block_after m m' b cs.
Proof. unfold block_after. by intros ->. Qed.

(** A run of stages that name no block twice calls every block at most
    once, and leaves a block it did not call as it was. *)
Lemma spec_stages_blocks (d : Data) (sa : list scale_attr_t) (l : list stage)
    (st : tensor * list tensor) (w : world) :
  NoDup (stage_blocks l) ->
  exists cs, calls (spec_stages d sa l st w).2 = calls w ++ cs /\
    forall b, block_after (self w) (self (spec_stages d sa l st w).2) b (calls_of b cs) /\
              (calls_of b cs <> [] -> b ∈ stage_blocks l).
Proof.
  revert st w. induction l as [|s l IH]; intros [x skips] w Hnd.
  { exists []. cbn. rewrite app_nil_r. split; [done|]. intros b. by split. }
  assert (forall p r st1 w1,
    NoDup (stage_blocks l) ->
    (forall b, b ∈ stage_blocks l -> b ∈ stage_blocks (s :: l)) ->
    self w1 = self w -> calls w1 = calls w ++ [Pooled p x d r] ->
    exists cs, calls (spec_stages d sa l st1 w1).2 = calls w ++ cs /\
      forall b, block_after (self w) (self (spec_stages d sa l st1 w1).2) b (calls_of b cs) /\
                (calls_of b cs <> [] -> b ∈ stage_blocks (s :: l))) as Hpool.
  { intros p r st1 w1 Hnd' Hsub Hself Hcalls.
    destruct (IH st1 w1 Hnd') as (cs & Hcs & Hb).
    exists (Pooled p x d r :: cs). split; [by rewrite Hcs, Hcalls, <- app_assoc|].
    intros b. destruct (Hb b) as [Hafter Hin]. rewrite calls_of_pooled.
    rewrite Hself in Hafter. split; [done|]. intros Hne.
    by apply Hsub, Hin. }
  rewrite spec_stages_cons.
  destruct s as [b0 lvl|p|p]; cbn [spec_stage].
  - cbn in Hnd. apply NoDup_cons in Hnd as [Hnotin Hnd].
    rewrite bindM_eq, call_block_eq. destruct (sa !! lvl) as [a|] eqn:Ea.
    2:{ exists []. cbn. rewrite app_nil_r. split; [done|]. intros b. by split. }
    cbn zeta.
    set (out := gem_res_net_block (blocks (self w) b0) x a.1.1 a.1.2 a.2).
    set (w1 := {| self := set_running b0 out.2 (self w);
                  calls := calls w ++ [Convolved b0 x a out.1] |}).
    assert (forall b, b <> b0 -> blocks (self w1) b = blocks (self w) b) as Hother.
    { intros b Hb. cbn. by rewrite decide_False. }
    assert (blocks (self w1) b0 = with_running (blocks (self w) b0) out.2) as Hthis.
    { cbn. by rewrite decide_True. }
    destruct out.1 as [y|e] eqn:Ey.
    + unfold mret, M_ret. cbn [fst snd].
      destruct (IH (y, skips) w1 Hnd) as (cs & Hcs & Hb).
      exists (Convolved b0 x a (Ok y) :: cs).
      split; [rewrite Hcs; cbn; by rewrite <- app_assoc|].
      intros b. destruct (Hb b) as [Hafter Hin]. rewrite calls_of_convolved.
      destruct (decide (b0 = b)) as [<-|Hne].
      * split; [|intros _; apply elem_of_cons; by left].
        destruct (calls_of b0 cs) as [|c cs'] eqn:Ecs.
        -- unfold block_after in Hafter. split; [done|]. by rewrite Hafter, Hthis.
        -- exfalso. apply Hnotin, Hin. done.
      * split; [apply (block_after_step _ (self w1)); [apply Hother; congruence|done]|].
        intros Hcs'. apply elem_of_cons. right. by apply Hin.
    + cbn [fst snd]. exists [Convolved b0 x a (Raise e)]. split; [done|].
      intros b. rewrite calls_of_convolved. destruct (decide (b0 = b)) as [<-|Hne].
      * split; [|intros _; apply elem_of_cons; by left].
        split; [symmetry; exact Ey|exact Hthis].
      * split; [|done]. apply Hother. congruence.
  - rewrite bindM_eq, call_pool_eq. cbn zeta.
    destruct (parallel_transport_pool _ _ _) as [y|e] eqn:Ep.
    + unfold mret, M_ret. by eapply Hpool.
    + exists [Pooled p x d (Raise e)]. split; [done|]. intros b. by split.
  - rewrite bindM_eq, call_pool_eq. cbn zeta.
    destruct (parallel_transport_pool _ _ _) as [y|e] eqn:Ep.
    + destruct skips as [|copy skips].
      * exists [Pooled p x d (Ok y)]. split; [done|]. intros b. by split.
      * rewrite bindM_eq. unfold lift. destruct (cat1 y copy) as [z|e].
        -- unfold mret, M_ret. by eapply Hpool.
        -- exists [Pooled p x d (Ok y)]. split; [done|]. intros b. by split.
    + exists [Pooled p x d (Raise e)]. split; [done|]. intros b. by split.
Qed.

Lemma unet_blocks_NoDup : NoDup (stage_blocks spec_pipeline).
Proof. apply (bool_decide_unpack _). by vm_compute. Qed.

(** X8.  In a run of [forward] every block is called at most once.  A
    block the run did not get to is left as it was, buffers included; a
    block it called ran on the state it had before the run, and is left
    with the buffers the library returned from that call. *)
Theorem forward_block_state (d : Data) (w : world) (b : block_name) :
  match calls_of b (new_calls w (forward d w).2) with
  | [] => blocks (self (forward d w).2) b = blocks (self w) b
  | [(x, a, r)] =>
      let out := gem_res_net_block (blocks (self w) b) x a.1.1 a.1.2 a.2 in
      r = out.1 /\ blocks (self (forward d w).2) b = with_running (blocks (self w) b) out.2
  | _ => False
  end.
Proof.
  change (block_after (self w) (self (forward d w).2) b
            (calls_of b (new_calls w (forward d w).2))).
  rewrite forward_unfold.
  destruct (feature_assembly (self w) d) as [x|e].
  2:{ cbn. unfold new_calls. by rewrite drop_all. }
  cbn zeta. destruct (scale_attrs (self w) d) as [sa|e].
  2:{ cbn [fst snd self]. unfold new_calls. cbn [calls].
      by rewrite drop_app_length, calls_of_transforms. }
  match goal with |- context [spec_stages d sa spec_pipeline ?st ?w1] =>
    destruct (spec_stages_blocks d sa spec_pipeline st w1) as (cs & Hcs & Hb);
    [apply unet_blocks_NoDup|];
    destruct (spec_stages d sa spec_pipeline st w1) as [[st'|e] w2] end;
    cbn [fst snd calls self] in *.
  - destruct (Hb b) as [Hafter _].
    destruct (getattr "frame" (frame d)) as [fr|e]; cbn [fst snd self];
      unfold new_calls; cbn [calls]; rewrite Hcs, <- ?app_assoc, drop_app_length;
      rewrite !calls_of_app, calls_of_transforms; cbn; by rewrite ?app_nil_r.
  - destruct (Hb b) as [Hafter _].
    unfold new_calls. rewrite Hcs, <- ?app_assoc, drop_app_length.
    by rewrite !calls_of_app, calls_of_transforms.
Qed.

(** ** The scales a run uses *)

Lemma same_layers_set_running (b : block_name) (r : buffers) (m m' : GEMGCN) :
  same_layers m m' -> same_layers (set_running b r m) (set_running b r m').
Proof.
  intros [Hb Hp]. split; [|done]. intros b'. cbn. case_decide; by rewrite ?Hb.
Qed.

Lemma spec_stage_agree (d : Data) (sa sa' : list scale_attr_t) (s : stage)
    (st : tensor * list tensor) (w w' : world) :
  same_layers (self w) (self w') ->
  (forall b lvl, s = Convolve b lvl -> sa !! lvl = sa' !! lvl) ->
  (spec_stage d sa s st w).1 = (spec_stage d sa' s st w').1 /\
  same_layers (self (spec_stage d sa s st w).2) (self (spec_stage d sa' s st w').2).
Proof.
  intros Hsame Hlvl. pose proof Hsame as [Hb Hp].
  destruct st as [x skips]. destruct s as [b lvl|p|p]; cbn [spec_stage].
  - rewrite !bindM_eq, !call_block_eq, <- (Hlvl b lvl eq_refl), <- Hb.
    destruct (sa !! lvl) as [a|]; [|done]. cbn zeta.
    destruct (gem_res_net_block _ _ _ _ _) as [[y|e] buf]; cbn [fst snd];
      (split; [done|]); by apply same_layers_set_running.
  - rewrite !bindM_eq, !call_pool_eq, <- Hp. cbn zeta.
    by destruct (parallel_transport_pool _ _ _).
  - rewrite !bindM_eq, !call_pool_eq, <- Hp. cbn zeta.
    destruct (parallel_transport_pool _ _ _) as [y|e]; [|done].
    destruct skips as [|copy skips]; [done|].
    rewrite !bindM_eq. unfold lift. by destruct (cat1 y copy).
Qed.

(** What a run of stages returns depends on the scale attributes of the
    levels its blocks work at, and on no others. *)
Lemma spec_stages_agree (d : Data) (sa sa' : list scale_attr_t) (l : list stage)
    (st : tensor * list tensor) (w w' : world) :
  same_layers (self w) (self w') ->
  (forall b lvl, Convolve b lvl ∈ l -> sa !! lvl = sa' !! lvl) ->
  (spec_stages d sa l st w).1 = (spec_stages d sa' l st w').1 /\
  same_layers (self (spec_stages d sa l st w).2) (self (spec_stages d sa' l st w').2).
Proof.
  revert st w w'. induction l as [|s l IH]; intros st w w' Hsame Hlvl; [done|].
  rewrite !spec_stages_cons.
  destruct (spec_stage_agree d sa sa' s st w w' Hsame) as [Hr Hs].
  { intros b lvl ->. apply (Hlvl b), elem_of_cons. by left. }
  destruct (spec_stage d sa s st w) as [r w1].
  destruct (spec_stage d sa' s st w') as [r' w1'].
  cbn [fst snd] in *. subst r'. destruct r as [st1|e]; [|done].
  apply IH; [done|]. intros b lvl Hin. apply (Hlvl b), elem_of_cons. by right.
Qed.

Lemma scale_attrs_take (m m' : GEMGCN) (d : Data) (sa sa' : list scale_attr_t) (k i : nat) :
  take k (scale_transforms m) = take k (scale_transforms m') ->
  scale_attrs m d = Ok sa -> scale_attrs m' d = Ok sa' ->
  i < k -> sa !! i = sa' !! i.
Proof.
  intros Htake Hsa Hsa' Hi.
  assert (scale_transforms m !! i = scale_transforms m' !! i) as Hts.
  { by rewrite <- (lookup_take_lt _ k i), Htake, lookup_take_lt. }
  destruct (scale_transforms m !! i) as [s|] eqn:Hs.
  - destruct (scale_attrs_lookup _ _ _ _ _ Hsa Hs) as (d1 & a & Hd1 & Ha & ->).
    destruct (scale_attrs_lookup _ _ _ _ _ Hsa' (eq_sym Hts)) as (d2 & a' & Hd2 & Ha' & ->).
    congruence.
  - symmetry in Hts. apply lookup_ge_None in Hs, Hts.
    rewrite <- (scale_attrs_length _ _ _ Hsa) in Hs.
    rewrite <- (scale_attrs_length _ _ _ Hsa') in Hts.
    apply lookup_ge_None in Hs, Hts. congruence.
Qed.

(** X9.  [forward] uses the first three scales only.  Two modules with
    the same layers and the same first three scale transforms, on which all
    scale transforms go through, return the same for the same batch, and
    leave their blocks the same: scales beyond the third are computed and
    dropped. *)
Theorem forward_uses_three_scales (d : Data) (w w' : world)
    (sa sa' : list scale_attr_t) :
  in_rep (self w) = in_rep (self w') -> same_layers (self w) (self w') ->
  take 3 (scale_transforms (self w)) = take 3 (scale_transforms (self w')) ->
  scale_attrs (self w) d = Ok sa -> scale_attrs (self w') d = Ok sa' ->
  (forward d w).1 = (forward d w').1 /\
  same_layers (self (forward d w).2) (self (forward d w').2).
Proof.
  intros Hin Hsame Htake Hsa Hsa'. rewrite !forward_unfold.
  assert (feature_assembly (self w) d = feature_assembly (self w') d) as <-.
  { rewrite !feature_assembly_eq. by rewrite Hin. }
  destruct (feature_assembly (self w) d) as [x|e]; [|done]. cbn zeta.
  rewrite Hsa, Hsa'.
  match goal with
  | |- context [spec_stages d sa spec_pipeline ?st ?w1] =>
      match goal with
      | |- context [spec_stages d sa' spec_pipeline st ?w1'] =>
          destruct (spec_stages_agree d sa sa' spec_pipeline st w1 w1') as [Hr Hs];
          [done| |
           destruct (spec_stages d sa spec_pipeline st w1) as [r w2];
           destruct (spec_stages d sa' spec_pipeline st w1') as [r' w2']]
      end
  end.
  { intros b lvl Hl. apply (scale_attrs_take _ _ d sa sa' 3 lvl Htake Hsa Hsa').
    rewrite (unet_levels b lvl Hl). destruct b; cbn; lia. }
  cbn [fst snd] in *. subst r'. destruct r as [st'|e]; [|done].
  by destruct (getattr "frame" (frame d)).
Qed.

(** ** The output *)

Lemma numel_squeeze (s : list nat) : numel (filter (fun d => d <> 1) s) = numel s.
Proof.
  induction s as [|n s IH]; [done|]. rewrite filter_cons. case_decide as Hn.
  - cbn. unfold numel in IH. by rewrite IH.
  - assert (n = 1) as -> by lia. rewrite IH. unfold numel. cbn. lia.
Qed.

(** X10.  What [forward] returns is what the projection returned with
    every dimension of size one dropped: the same elements in the same
    order, a shape without any 1 whose sizes multiply to the same count,
    and so a well-formed tensor whenever the projection's is. *)
Theorem forward_output_squeezed (d : Data) (w : world) (out : tensor) :
  (forward d w).1 = Ok out ->
  exists x fr y,
    frame d = Some fr /\
    last (new_calls w (forward d w).2) = Some (Projected x fr (Ok y)) /\
    elems out = elems y /\
    (1 ∉ shape out) /\
    (shape out `sublist_of` shape y) /\
    numel (shape out) = numel (shape y) /\
    (tensor_wf y -> tensor_wf out).
Proof.
  rewrite forward_unfold.
  destruct (feature_assembly (self w) d) as [x0|e]; [|done]. cbn zeta.
  destruct (scale_attrs (self w) d) as [sa|e]; [|done].
  match goal with |- context [spec_stages d sa spec_pipeline ?st ?w1] =>
    destruct (spec_stages_run d sa spec_pipeline st w1) as (_ & cs & Hcs & _);
    destruct (spec_stages d sa spec_pipeline st w1) as [[st'|e] w2] end;
    cbn [fst snd calls] in *; [|done].
  destruct (frame d) as [fr|]; [|done]. cbn [getattr or_raise fst snd].
  destruct (so2_feature_to_ambient_vector st'.1 fr) as [y|e]; [|done].
  cbn [fmap result_fmap]. intros [= <-]. exists st'.1, fr, y.
  split; [done|]. split.
  { unfold new_calls. cbn [calls]. rewrite Hcs, <- !app_assoc, drop_app_length.
    by rewrite !last_app. }
  split; [done|]. cbn [squeeze shape elems]. split.
  { intros Hin. apply list_elem_of_filter in Hin as [Hne _]. done. }
  split; [apply sublist_filter|]. split; [apply numel_squeeze|].
  unfold tensor_wf. cbn [squeeze shape elems]. by rewrite numel_squeeze.
Qed.

(** ** The constructor *)

(** X11.  The constructor raises [IndexError] exactly when [in_rep] or
    [out_rep] has fewer than two entries; [radii] of any length, empty
    included, any [max_order] and any [n_rings] are taken.  The module it
    returns holds [in_rep] and [out_rep] as given, entries beyond the second
    included, and one scale transform per radius. *)
Theorem init_outcome (radii : list radius) (in_rep_ out_rep_ : list nat)
    (max_order n_rings_ : option nat) (fresh : block_name -> weights * buffers) :
  if decide (2 <= length in_rep_ /\ 2 <= length out_rep_)
  then exists m, __init__ radii in_rep_ out_rep_ max_order n_rings_ fresh = Ok m /\
                 in_rep m = in_rep_ /\ out_rep m = out_rep_ /\
                 length (scale_transforms m) = length radii
  else __init__ radii in_rep_ out_rep_ max_order n_rings_ fresh = Raise IndexError.
Proof.
  unfold __init__. case_decide as Hlen.
  - destruct Hlen as [Hi Ho].
    destruct in_rep_ as [|in0 [|in1 rest]]; cbn in Hi; [lia..|].
    destruct out_rep_ as [|out0 [|out1 rest']]; cbn in Ho; [lia..|].
    cbn. eexists. split; [done|]. cbn. do 2 (split; [done|]). apply length_imap.
  - destruct in_rep_ as [|in0 [|in1 rest]]; [done..|].
    destruct out_rep_ as [|out0 [|out1 rest']]; [done..|].
    exfalso. apply Hlen. cbn. lia.
Qed.

(** X12.  The layers the constructor builds fit the order [forward]
    calls them in, whatever [in_rep], [out_rep] and [max_order] are: a
    signal of [in_rep[1]] channels and order [in_rep[0]] at the native
    resolution goes through the eighteen stages with every block given the
    channels and the order it was built for, at its own scale level, every
    pooling layer going one level down and every unpooling layer back up to
    the level of the skip copy it is concatenated with; it leaves with
    [out_rep[1]] channels of order [out_rep[0]], at the native resolution,
    and no skip copy is left over. *)
Theorem init_channel_flow (radii : list radius) (in_rep_ out_rep_ : list nat)
    (max_order n_rings_ : option nat) (fresh : block_name -> weights * buffers)
    (m : GEMGCN) :
  __init__ radii in_rep_ out_rep_ max_order n_rings_ fresh = Ok m ->
  exists in0 in1 out0 out1,
    in_rep_ !! 0 = Some in0 /\ in_rep_ !! 1 = Some in1 /\
    out_rep_ !! 0 = Some out0 /\ out_rep_ !! 1 = Some out1 /\
    flow_stages m spec_pipeline
      ({| sig_channels := in1; sig_order := in0; sig_level := 0 |}, []) =
    Some ({| sig_channels := out1; sig_order := out0; sig_level := 0 |}, []).
Proof.
  unfold __init__. intros Hm.
  destruct (in_rep_ !! 1) as [in1|]; [|done].
  destruct (in_rep_ !! 0) as [in0|]; [|done].
  destruct (out_rep_ !! 1) as [out1|]; [|done].
  destruct (out_rep_ !! 0) as [out0|]; [|done].
  cbn in Hm. injection Hm as <-. exists in0, in1, out0, out1.
  do 4 (split; [done|]). unfold spec_pipeline.
  repeat (cbn [flow_stages flow_stage blocks pools cfg GemResNetBlock
               in_channels out_channels in_order out_order coarse_lvl unpool
               sig_channels sig_order sig_level mbind option_bind];
          rewrite decide_True by done).
  done.
Qed.

(** ** The skip connections *)

Lemma cat1_Ok_cases (a b z : tensor) :
  cat1 a b = Ok z ->
  (exists n ca cb rest,
     shape a = n :: ca :: rest /\ shape b = n :: cb :: rest /\
     shape z = n :: (ca + cb) :: rest) \/
  (shape a = [0] /\ z = b) \/
  (shape b = [0] /\ z = a).
Proof.
  unfold cat1, cat1_alone. intros Hz.
  case_decide as Ha.
  { right; left. split; [done|].
    destruct (shape b) as [|[|?] [|??]]; by simplify_eq. }
  case_decide as Hb.
  { right; right. split; [done|].
    destruct (shape a) as [|[|?] [|??]]; by simplify_eq. }
  left.
  destruct (shape a) as [|n [|ca ra]], (shape b) as [|n' [|cb rb]]; try done.
  case_decide as Heq; [|done]. destruct Heq as [<- <-]. injection Hz as <-.
  by exists n, ca, cb, ra.
Qed.

(** The log of a run that returns. *)
Lemma forward_returns_log (d : Data) (w : world) (out : tensor) :
  (forward d w).1 = Ok out ->
  exists sa x0 cs st' fr y,
    stages_log d sa spec_pipeline (x0, []) cs st' /\
    new_calls w (forward d w).2 =
      (transform_call d <$> scale_transforms (self w)) ++ cs ++
      [Projected st'.1 fr (Ok y)].
Proof.
  rewrite forward_unfold.
  destruct (feature_assembly (self w) d) as [x0|e]; [|done]. cbn zeta.
  destruct (scale_attrs (self w) d) as [sa|e] eqn:Hsa; [|done].
  rewrite (scale_attrs_attempted _ _ _ Hsa).
  match goal with |- context [spec_stages d sa spec_pipeline ?st ?w1] =>
    destruct (spec_stages d sa spec_pipeline st w1) as [[st'|e] w2] eqn:Hst end;
    [|done].
  apply spec_stages_log in Hst as (cs & Hcs & Hlog). cbn [calls] in Hcs.
  destruct (frame d) as [fr|]; [|done]. cbn [getattr or_raise fst snd].
  destruct (so2_feature_to_ambient_vector st'.1 fr) as [y|e]; [|done].
  intros _. exists sa, x0, cs, st', fr, y. split; [done|].
  unfold new_calls. cbn [calls]. by rewrite Hcs, <- !app_assoc, drop_app_length.
Qed.

Ltac find_call H :=
  repeat (apply elem_of_cons in H as [H|H]; [try discriminate H|]);
  try (by apply elem_of_nil in H).

(** X13.  The skip connections are symmetric.  In a run that returns,
    the block behind an unpooling step is given the concatenation of what
    the unpooling layer returned with the skip copy kept at the matching
    pooling step.  The two agree in the number of vertices and in every
    dimension behind the channels, and the block is given a tensor of that
    many vertices with the channels of both, those of the unpooled features
    first; or one of the two is a one-dimensional empty tensor, which
    [torch.cat] skips, and the block is given the other alone. *)
Theorem forward_skip_symmetry (d : Data) (w : world) (out : tensor)
    (copy x u z : tensor) (a : scale_attr_t) (r r' : result tensor)
    (p up : pool_name) (b : block_name) :
  (forward d w).1 = Ok out ->
  (p, up, b) = (pool1, unpool1, conv03) \/ (p, up, b) = (pool2, unpool2, conv13) ->
  Pooled p copy d r ∈ new_calls w (forward d w).2 ->
  Pooled up x d (Ok u) ∈ new_calls w (forward d w).2 ->
  Convolved b z a r' ∈ new_calls w (forward d w).2 ->
  cat1 u copy = Ok z /\
  ((exists n cu cc rest,
      shape u = n :: cu :: rest /\ shape copy = n :: cc :: rest /\
      shape z = n :: (cu + cc) :: rest) \/
   (shape u = [0] /\ z = copy) \/
   (shape copy = [0] /\ z = u)).
Proof.
  intros Hout Hwhich Hp Hup Hb.
  destruct (forward_returns_log d w out Hout)
    as (sa & x0 & cs & st' & fr & y & Hlog & Hcalls).
  rewrite Hcalls in Hp, Hup, Hb. clear Hcalls.
  apply unet_log in Hlog
    as (a0 & a1 & a2 & x1 & copy0 & p1 & x3 & copy1 & p2 & x5 & x6 & u2 & z2 & x8 &
        x9 & x10 & x11 & u1 & z1 & x13 & x14 & x15 & x16 &
        Ha0 & Ha1 & Ha2 & Hz2 & Hz1 & -> & ->).
  assert (forall c, (forall s, c <> transform_call d s) ->
            (forall x' fr' r0, c <> Projected x' fr' r0) ->
            forall l l' : list call,
            c ∈ (transform_call d <$> scale_transforms (self w)) ++ l ++ l' ->
            (forall c', c' ∈ l' -> exists x' fr' r0, c' = Projected x' fr' r0) ->
            c ∈ l) as Hmid.
  { intros c Hnt Hnp l l' Hin Hl'.
    apply elem_of_app in Hin as [Hin|Hin].
    - apply list_elem_of_fmap in Hin as (s & -> & _). by destruct (Hnt s).
    - apply elem_of_app in Hin as [Hin|Hin]; [done|].
      destruct (Hl' _ Hin) as (x' & fr' & r0 & ->). by destruct (Hnp x' fr' r0). }
  assert (forall c', c' ∈ [Projected (x16, @nil tensor).1 fr (Ok y)] ->
            exists x' fr' r0, c' = Projected x' fr' r0) as Hlast.
  { intros c' Hc'. apply list_elem_of_singleton in Hc' as ->. by eexists _, _, _. }
  apply Hmid in Hp; [|done|done|done].
  apply Hmid in Hup; [|done|done|done].
  apply Hmid in Hb; [|done|done|done].
  destruct Hwhich as [[= -> -> ->]|[= -> -> ->]].
  - find_call Hp. find_call Hup. find_call Hb. simplify_eq.
    split; [done|]. by apply cat1_Ok_cases.
  - find_call Hp. find_call Hup. find_call Hb. simplify_eq.
    split; [done|]. by apply cat1_Ok_cases.
Qed.

End Outcomes.

(** * The properties on the small instance *)

Import Demo.

Lemma init_fixed_hyperparameters_witness :
  __init__ [1; 2; 3] [1; 3] [1; 1] None None fresh = Ok net /\
  band_limit (block_kwargs (cfg (blocks net conv11))) = 2.
Proof.
  split; [reflexivity|].
  apply (init_fixed_hyperparameters (T:=types) [1; 2; 3] [1; 3] [1; 1] None None
           fresh net conv11).
  reflexivity.
Defined.

(** The small instance meets the conditions of the shape theorems. *)
Lemma demo_well_shaped (n n1 n2 : nat) : well_shaped net (mesh_batch n n1 n2) n.
Proof.
  eexists _, 1, 1, 3, _, _. cbn.
  split; [reflexivity|]. split; [reflexivity|]. split; [reflexivity|].
  split; [reflexivity|]. split; [reflexivity|].
  split; [by rewrite length_fmap, length_seq|].
  split; [reflexivity|]. split; [reflexivity|].
  right. split; [reflexivity|]. eexists _, _.
  split; [reflexivity|]. split; [reflexivity|].
  split; [apply length_replicate|].
  apply Forall_forall. intros i Hi. apply elem_of_replicate in Hi as [-> _]. cbn. lia.
Qed.

Lemma demo_fits (n n1 n2 : nat) :
  library_fits net (mesh_batch n n1 n2) (levels n n1 n2).
Proof.
  split; [|split; [|split]].
  - intros s Hs. cbn in Hs.
    repeat (apply elem_of_cons in Hs as [->|Hs]; [by eexists _, _|]).
    by apply elem_of_nil in Hs.
  - intros blk lvl s d' a x Hs Hd' Ha Hx.
    destruct lvl as [|[|[|lvl]]]; cbn in Hs; [| | |done];
      injection Hs as <-; cbn in Hd'; injection Hd' as <-;
      cbn in Ha; injection Ha as <-;
      cbn; unfold block_stub; rewrite Hx; cbn;
      (rewrite decide_True by done); by eexists.
  - intros pn x c i p Hx. subst p.
    destruct pn; cbn in *; unfold pool_stub; rewrite Hx; cbn;
      (rewrite decide_True by done); by eexists.
  - intros x fr c Hfr Hsfr Hx. cbn. unfold project_stub. rewrite Hx, Hsfr.
    rewrite decide_True by done. by eexists.
Qed.

(** Runs of the small instance: a complete run on two vertices; two scales
    only; a batch without [condition]; nine declared input channels. *)
Example demo_run :
  (forward (mesh_batch 2 1 1) (start net)).1 = Ok (zeros [2; 3]) /\
  length (calls (forward (mesh_batch 2 1 1) (start net)).2) = 22.
Proof. split; reflexivity. Qed.

Example demo_run_short :
  (forward (mesh_batch 2 1 1) (start net_short)).1 = Raise IndexError /\
  kind_of <$> calls (forward (mesh_batch 2 1 1) (start net_short)).2 =
    [KTransform; KTransform; KConv conv01; KConv conv02; KPool pool1;
     KConv conv11; KConv conv12; KPool pool2].
Proof. split; reflexivity. Qed.

Example demo_run_wide :
  (forward (mesh_batch 2 1 1) (start net_wide)).1 = Raise ShapeError /\
  kind_of <$> calls (forward (mesh_batch 2 1 1) (start net_wide)).2 =
    [KTransform; KTransform; KTransform; KConv conv01].
Proof. split; reflexivity. Qed.

(** C1 fails on a batch of one vertex: well-shaped attributes, a library
    that does its part, and an output of shape [(3,)], not [(1, 3)]. *)
Lemma forward_output_shape_counterexample :
  well_shaped net (mesh_batch 1 1 1) 1 /\
  library_fits net (mesh_batch 1 1 1) (levels 1 1 1) /\
  exists out,
    (forward (mesh_batch 1 1 1) (start net)).1 = Ok out /\
    shape out = [3] /\ shape out <> [1; 3].
Proof.
  split; [apply demo_well_shaped|]. split; [apply demo_fits|].
  exists (zeros [3]). split; [reflexivity|]. split; [reflexivity|discriminate].
Qed.

Lemma forward_output_shape_witness :
  exists x fr y out,
    last (new_calls (start net) (forward (mesh_batch 2 1 1) (start net)).2)
      = Some (Projected x fr (Ok y)) /\
    shape y = [2; 1; 3] /\
    (forward (mesh_batch 2 1 1) (start net)).1 = Ok out /\ out = squeeze y /\
    shape out = filter (fun k => k <> 1) [2; 1; 3] /\
    (2 <> 1 -> 1 = 1 -> shape out = [2; 3]).
Proof.
  apply (forward_output_shape (T:=types) (L:=library) [1; 2; 3] [1; 3] [1; 1] None None
           fresh net (mesh_batch 2 1 1) (start net) (levels 2 1 1) 2 1).
  - reflexivity.
  - apply same_params_refl.
  - cbn. lia.
  - reflexivity.
  - reflexivity.
  - apply demo_well_shaped.
  - apply demo_fits.
  - reflexivity.
Defined.

(** C2 fails as stated: with nine declared input channels [prepare_input]
    returns a tensor of width three and raises nothing; and a batch
    without [condition], where the declaration asks for the condition
    channel, ends in an attribute error, not a shape error. *)
Lemma assembled_channel_count_counterexample :
  (exists x sa,
     (prepare_input (mesh_batch 2 1 1) (start net_wide)).1 = Ok (x, sa) /\
     in_rep net_wide !! 1 = Some 9 /\ size x 1 = Ok 3) /\
  in_rep net !! 1 = Some 3 /\
  (forward (without_condition (mesh_batch 2 1 1)) (start net)).1 =
    Raise (AttributeError "condition").
Proof.
  split; [|split; reflexivity].
  exists (assembled net_wide (mesh_batch 2 1 1)), attrs_211.
  split; [reflexivity|]. split; reflexivity.
Qed.

Lemma assembled_channel_count_witness :
  size (assembled net_wide (mesh_batch 2 1 1)) 1 = Ok 3 /\
  (size (assembled net_wide (mesh_batch 2 1 1)) 1 = Ok 9 <-> 9 = 1 + 1 \/ 9 = 1 + 2).
Proof.
  apply (proj1 (assembled_channel_count (T:=types) (L:=library)
                  (mesh_batch 2 1 1) (start net_wide) (features 2) 2 1 3 9
                  eq_refl eq_refl eq_refl)).
  reflexivity.
Defined.

(** C3 fails as stated: the scalar slot of the geodesic channel holds
    [data.geo] as the zero tensor it is assigned into stores it, which is
    another number where the distance does not fit the default dtype. *)
Lemma feature_assembly_layout_counterexample :
  exists x g,
    feature_assembly net far_batch = Ok x /\ geo far_batch = Some g /\
    g !! 0 = Some 16777217%Z /\ get3 x 0 1 0 = Some 16777216%Z /\
    get3 x 0 1 0 <> g !! 0.
Proof.
  exists (assembled net far_batch), [16777217%Z; 16777219%Z].
  split; [reflexivity|]. split; [reflexivity|]. split; [reflexivity|].
  split; [reflexivity|]. vm_compute. discriminate.
Qed.

Lemma feature_assembly_layout_witness :
  shape (assembled net (mesh_batch 2 1 1)) = [2; 1 + 2; 3] /\
  get3 (assembled net far_batch) 0 1 0 = Some (to_float32 16777217) /\
  assembly_batch net (mesh_batch 2 1 1) = mesh_batch 2 1 1 /\
  self (prepare_input (mesh_batch 2 1 1) (start net)).2 = self (start net).
Proof.
  pose proof (feature_assembly_layout (T:=types) (L:=library)
                (mesh_batch 2 1 1) (start net) (assembled net (mesh_batch 2 1 1))
                (features 2) 2 1 3 3 eq_refl eq_refl eq_refl eq_refl eq_refl)
    as (_ & Hcond & Hbatch & Hself & _).
  pose proof (feature_assembly_layout (T:=types) (L:=library)
                far_batch (start net) (assembled net far_batch)
                (features 2) 2 1 3 3 eq_refl eq_refl eq_refl eq_refl eq_refl)
    as ((g & gs & Hg & Hgs & _ & _ & Hslot) & _).
  split; [exact (proj1 Hcond)|]. split; [|split; [exact Hbatch|exact Hself]].
  injection Hg as <-. injection Hgs as <-.
  exact (Hslot 0 0 ltac:(lia) ltac:(lia)).
Defined.




Lemma forward_single_vertex_witness :
  exists out,
    (forward (mesh_batch 1 1 1) (start net)).1 = Ok out /\
    shape out <> [1; 3] /\
    (1 = 1 -> shape out = [3]).
Proof.
  apply (forward_single_vertex (T:=types) (L:=library) [1; 2; 3] [1; 3] [1; 1] None None
           fresh net (mesh_batch 1 1 1) (start net) (levels 1 1 1) 1).
  - reflexivity.
  - apply same_params_refl.
  - cbn. lia.
  - reflexivity.
  - reflexivity.
  - apply demo_well_shaped.
  - apply demo_fits.
  - reflexivity.
Defined.

(** The complete run of the small instance makes the calls of the
    pipeline over three scales, and a second run on the state it leaves
    applies the three scale transforms again. *)
Example demo_pipeline :
  kind_of <$> new_calls (start net) (forward (mesh_batch 2 1 1) (start net)).2 =
    pipeline_kinds 3.
Proof. reflexivity. Qed.

Example demo_second_run :
  let d := mesh_batch 2 1 1 in
  let w1 := (forward d (start net)).2 in
  take 3 (new_calls w1 (forward d w1).2) = transform_call d <$> scale_transforms net /\
  (prepare_input d w1).1 = (prepare_input d (start net)).1.
Proof. split; reflexivity. Qed.

(** * Failures and edge cases on the small instance *)

Lemma feature_assembly_ignores_condition_witness :
  feature_assembly net_plain (with_condition (mesh_batch 2 1 1) None None) =
  feature_assembly net_plain (mesh_batch 2 1 1).
Proof.
  apply (feature_assembly_ignores_condition (T:=types) net_plain (mesh_batch 2 1 1)
           None None).
  intros (f & N & C & I & in1 & Hf & Hs & Hin & Hlt).
  cbn in Hf, Hin. simplify_eq. cbn in Hs. simplify_eq. lia.
Defined.

Lemma feature_assembly_well_formed_witness :
  tensor_wf (assembled net (mesh_batch 2 1 1)) /\
  exists k, (k = 1 \/ k = 2) /\
    shape (assembled net (mesh_batch 2 1 1)) = [2; 1 + k; 3] /\
    length (elems (assembled net (mesh_batch 2 1 1))) =
      length (elems (features 2)) + k * (2 * 3).
Proof.
  apply (feature_assembly_well_formed (T:=types) net (mesh_batch 2 1 1)
           (assembled net (mesh_batch 2 1 1)) (features 2) 2 1 3); reflexivity.
Defined.

Lemma forward_too_few_scales_witness :
  (forward (mesh_batch 2 1 1) (start net_short)).1 = Raise IndexError /\
  kind_of <$> new_calls (start net_short) (forward (mesh_batch 2 1 1) (start net_short)).2 =
    replicate 2 KTransform ++ take (3 * 2) (stage_kind <$> spec_pipeline).
Proof.
  apply (forward_too_few_scales (T:=types) (L:=library) (mesh_batch 2 1 1) (start net_short)
           (assembled net_short (mesh_batch 2 1 1)) (take 2 attrs_211)).
  - reflexivity.
  - cbn. lia.
  - apply all_returned_Forall. reflexivity.
Defined.

Lemma forward_reads_frame_last_witness :
  (forward (without_frame (mesh_batch 2 1 1)) (start net)).1 =
    Raise (AttributeError "frame") /\
  length (new_calls (start net) (forward (without_frame (mesh_batch 2 1 1)) (start net)).2)
    = 3 + 18.
Proof.
  pose proof (forward_reads_frame_last (T:=types) (L:=library)
                (without_frame (mesh_batch 2 1 1)) (start net) eq_refl) as (_ & _ & Hlast).
  split; [|reflexivity].
  apply Hlast; [apply all_returned_Forall|]; reflexivity.
Defined.

Lemma forward_needs_every_scale_witness :
  raises (forward (mesh_batch 2 1 1) (start net_deep)).1 /\
  Forall (fun c => kind_of c = KTransform)
    (new_calls (start net_deep) (forward (mesh_batch 2 1 1) (start net_deep)).2).
Proof.
  apply (forward_needs_every_scale (T:=types) (L:=library) (mesh_batch 2 1 1)
           (start net_deep) (Compose [ScaleMask 3; GemPrecomp (T:=types) 2 2 4])).
  - apply (list_elem_of_lookup_2 _ 3). reflexivity.
  - intros (d' & a & Hd & _).
    assert (apply_composed (Compose [ScaleMask 3; GemPrecomp (T:=types) 2 2 4])
              (mesh_batch 2 1 1) = Raise (LibraryError "no such level")) as Hr
      by reflexivity.
    rewrite Hr in Hd. discriminate Hd.
Defined.

Lemma forward_uses_three_scales_witness :
  (forward (with_mesh (mesh_batch 2 1 1) [2; 1; 1; 1]) (start net)).1 =
  (forward (with_mesh (mesh_batch 2 1 1) [2; 1; 1; 1]) (start net_deep)).1 /\
  same_layers
    (self (forward (with_mesh (mesh_batch 2 1 1) [2; 1; 1; 1]) (start net)).2)
    (self (forward (with_mesh (mesh_batch 2 1 1) [2; 1; 1; 1]) (start net_deep)).2).
Proof.
  apply (forward_uses_three_scales (T:=types) (L:=library)
           (with_mesh (mesh_batch 2 1 1) [2; 1; 1; 1]) (start net) (start net_deep)
           attrs_211 (attrs_211 ++ [(Some 3, 1, 4)])).
  - reflexivity.
  - split; by intros [].
  - reflexivity.
  - reflexivity.
  - reflexivity.
Defined.

Lemma forward_output_squeezed_witness :
  exists x fr y,
    frame (mesh_batch 2 1 1) = Some fr /\
    last (new_calls (start net) (forward (mesh_batch 2 1 1) (start net)).2) =
      Some (Projected x fr (Ok y)) /\
    elems (zeros [2; 3]) = elems y /\
    (1 ∉ shape (zeros [2; 3])) /\
    (shape (zeros [2; 3]) `sublist_of` shape y) /\
    numel (shape (zeros [2; 3])) = numel (shape y) /\
    (tensor_wf y -> tensor_wf (zeros [2; 3])).
Proof.
  apply (forward_output_squeezed (T:=types) (L:=library) (mesh_batch 2 1 1) (start net)
           (zeros [2; 3])).
  reflexivity.
Defined.

Lemma init_channel_flow_witness :
  exists in0 in1 out0 out1,
    [1; 3] !! 0 = Some in0 /\ [1; 3] !! 1 = Some in1 /\
    [1; 1] !! 0 = Some out0 /\ [1; 1] !! 1 = Some out1 /\
    flow_stages net spec_pipeline
      ({| sig_channels := in1; sig_order := in0; sig_level := 0 |}, []) =
    Some ({| sig_channels := out1; sig_order := out0; sig_level := 0 |}, []).
Proof.
  apply (init_channel_flow (T:=types) [1; 2; 3] [1; 3] [1; 1] None None fresh net).
  reflexivity.
Defined.

Lemma forward_skip_symmetry_witness :
  cat1 (call_output (nth_call 16)) (call_input (nth_call 5)) =
    Ok (call_input (nth_call 17)) /\
  ((exists n cu cc rest,
      shape (call_output (nth_call 16)) = n :: cu :: rest /\
      shape (call_input (nth_call 5)) = n :: cc :: rest /\
      shape (call_input (nth_call 17)) = n :: (cu + cc) :: rest) \/
   (shape (call_output (nth_call 16)) = [0] /\
    call_input (nth_call 17) = call_input (nth_call 5)) \/
   (shape (call_input (nth_call 5)) = [0] /\
    call_input (nth_call 17) = call_output (nth_call 16))).
Proof.
  apply (forward_skip_symmetry (T:=types) (L:=library) (mesh_batch 2 1 1) (start net)
           (zeros [2; 3])
           (call_input (nth_call 5)) (call_input (nth_call 16))
           (call_output (nth_call 16)) (call_input (nth_call 17))
           (Some 0, 2, 1) (Ok (call_output (nth_call 5))) (Ok (call_output (nth_call 17)))
           pool1 unpool1 conv03).
  - reflexivity.
  - by left.
  - apply (list_elem_of_lookup_2 _ 5). reflexivity.
  - apply (list_elem_of_lookup_2 _ 16). reflexivity.
  - apply (list_elem_of_lookup_2 _ 17). reflexivity.
Defined.

(** The failures of the small instance: a library call that raises is the
    last call of its run; the constructor refuses a declaration of one
    entry. *)
Example demo_outcomes :
  call_exn <$> new_calls (start net_wide) (forward (mesh_batch 2 1 1) (start net_wide)).2 =
    [None; None; None; Some ShapeError] /\
  __init__ [1; 2; 3] [1] [1; 1] None None fresh = Raise IndexError /\
  feature_assembly net (with_condition (mesh_batch 2 1 1) (Some [5%Z]) (Some [1%Z; 0%Z])) =
    Raise IndexError.
Proof. repeat split; reflexivity. Qed.
